(** * error.c: diagnostics, checked allocation and name bookkeeping

    A shallow embedding of [src/My Compiler/error.c].  The C functions are
    written in a small monad over the process state: a call returns, ends
    the process with an exit status, or is undefined (a fault).  Memory is
    a finite map from blocks to arrays of bytes, so that the caller's
    string, its copy and the installed names are distinct or shared as in
    the C program.  Output is recorded as a trace of events.

    The C library calls the file makes ([malloc], [realloc], [strcpy],
    [strrchr], [isatty], [fprintf], [strerror], [exit], ...) are modelled
    next to it, after the C standard and POSIX, with the constants of an
    LP64 Linux system (64-bit [size_t], 32-bit [unsigned], glibc's error
    numbers and messages). *)

From Stdlib Require Import ZArith List Ascii String Lia DecimalString.
From stdpp Require Import base option list gmap.

Local Open Scope Z_scope.
Local Open Scope list_scope.

(** ** Characters and C strings *)

(** The contents of a C string: its characters, terminator excluded. *)
Abbreviation cstr := (list ascii).

Definition lit (s : string) : cstr := list_ascii_of_string s.

Definition NUL : ascii := Eval cbv in ascii_of_nat 0.
Definition ESC_CHAR : ascii := Eval cbv in ascii_of_nat 27.
Definition NEWLINE : ascii := Eval cbv in ascii_of_nat 10.
Definition DQUOTE : ascii := Eval cbv in ascii_of_nat 34.
Definition SLASH : ascii := Eval cbv in ascii_of_nat 47.
Definition COLON : ascii := Eval cbv in ascii_of_nat 58.

(** ** ASCII colours (the macros at the head of the file) *)

Definition ESC : cstr := ESC_CHAR :: lit "[".
Definition BOLD : cstr := lit "1;".
Definition ASCII_RESET : cstr := ESC ++ lit "m".
Definition RED : cstr := lit "31m".
Definition YELLOW : cstr := lit "33m".
Definition WHITE : cstr := lit "37m".
Definition ASCII_BOLD_RED : cstr := ESC ++ BOLD ++ RED.
Definition ASCII_BOLD_YELLOW : cstr := ESC ++ BOLD ++ YELLOW.
Definition ASCII_BOLD_WHITE : cstr := ESC ++ BOLD ++ WHITE.

(** ** Memory *)

Abbreviation block := positive.

(** A C pointer: null, or an offset into an allocated block. *)
Inductive pointer : Type :=
  | NULL
  | Ptr (b : block) (ofs : nat).

(** A byte of memory; [None] is an indeterminate (never written) byte. *)
Abbreviation cell := (option ascii).

(** Reads the string that starts at the head of [cells]; running off the
    block or into an indeterminate byte is undefined behaviour ([None]). *)
Fixpoint scan_cstr (cells : list cell) : option cstr :=
  match cells with
  | [] => None
  | None :: _ => None
  | Some c :: rest =>
      if Ascii.eqb c NUL then Some []
      else match scan_cstr rest with
           | Some s => Some (c :: s)
           | None => None
           end
  end.

(** As [scan_cstr], reading at most [n] characters (printf's precision). *)
Fixpoint scan_cstr_n (n : nat) (cells : list cell) : option cstr :=
  match n with
  | O => Some []
  | S n' =>
      match cells with
      | [] => None
      | None :: _ => None
      | Some c :: rest =>
          if Ascii.eqb c NUL then Some []
          else match scan_cstr_n n' rest with
               | Some s => Some (c :: s)
               | None => None
               end
      end
  end.

Definition cells_at (h : gmap block (list cell)) (p : pointer) : option (list cell) :=
  match p with
  | NULL => None
  | Ptr b o =>
      match h !! b with
      | Some cells => if (o <=? length cells)%nat then Some (drop o cells) else None
      | None => None
      end
  end.

Definition load_cstr (h : gmap block (list cell)) (p : pointer) : option cstr :=
  match cells_at h p with
  | Some cells => scan_cstr cells
  | None => None
  end.

Definition load_cstr_n (h : gmap block (list cell)) (n : nat) (p : pointer) : option cstr :=
  match cells_at h p with
  | Some cells => scan_cstr_n n cells
  | None => None
  end.

(** Writes [bytes] at [p]; the write must stay inside the block. *)
Definition store_bytes (h : gmap block (list cell)) (p : pointer) (bytes : list ascii)
  : option (gmap block (list cell)) :=
  match p with
  | NULL => None
  | Ptr b o =>
      match h !! b with
      | Some cells =>
          if (o + length bytes <=? length cells)%nat
          then Some (<[b := take o cells ++ (Some <$> bytes) ++ drop (o + length bytes) cells]> h)
          else None
      | None => None
      end
  end.

(** The assignment [*p = c]. *)
Definition store (h : gmap block (list cell)) (p : pointer) (c : ascii)
  : option (gmap block (list cell)) :=
  store_bytes h p [c].

(** ** Program state *)

Record SourcePos : Type := mkPos { line : Z; col : Z }.

(** What the process does to its streams, in order. *)
Inductive Event : Type :=
  | EvFlushStdout
  | EvStderr (text : cstr).

Record State : Type := mkState {
  mem : gmap block (list cell);   (* the allocated blocks *)
  mem_avail : Z;                  (* bytes the allocator can still hand out *)
  errno : Z;
  ttys : list Z;                  (* descriptors attached to a terminal *)
  position : SourcePos;           (* the global [position] *)
  pname : pointer;                (* static char *pname *)
  sname : pointer;                (* static char *sname *)
  trace : list Event
}.

Definition set_mem (st : State) (h : gmap block (list cell)) (avail : Z) : State :=
  mkState h avail (errno st) (ttys st) (position st) (pname st) (sname st) (trace st).

Definition set_errno (st : State) (e : Z) : State :=
  mkState (mem st) (mem_avail st) e (ttys st) (position st) (pname st) (sname st) (trace st).

Definition set_pname (st : State) (p : pointer) : State :=
  mkState (mem st) (mem_avail st) (errno st) (ttys st) (position st) p (sname st) (trace st).

Definition set_sname (st : State) (p : pointer) : State :=
  mkState (mem st) (mem_avail st) (errno st) (ttys st) (position st) (pname st) p (trace st).

Definition emit (st : State) (e : Event) : State :=
  mkState (mem st) (mem_avail st) (errno st) (ttys st) (position st) (pname st) (sname st)
          (trace st ++ [e]).

(** Everything written to the diagnostic stream, concatenated. *)
Fixpoint stderr_text (tr : list Event) : cstr :=
  match tr with
  | [] => []
  | EvFlushStdout :: rest => stderr_text rest
  | EvStderr t :: rest => t ++ stderr_text rest
  end.

(** ** The monad: a call returns, ends the process, or is undefined *)

Inductive Outcome (A : Type) : Type :=
  | Ret (a : A) (st : State)
  | Exit (status : Z) (st : State)
  | Fault.

Arguments Ret {A} a st.
Arguments Exit {A} status st.
Arguments Fault {A}.

Definition M (A : Type) : Type := State -> Outcome A.

Definition ret {A} (a : A) : M A := fun st => Ret a st.

Definition bind {A B} (m : M A) (k : A -> M B) : M B :=
  fun st =>
    match m st with
    | Ret a st' => k a st'
    | Exit status st' => Exit status st'
    | Fault => Fault
    end.

Notation "x <- m ;; k" := (bind m (fun x => k))
  (at level 100, m at next level, right associativity).
Notation "m ;;; k" := (bind m (fun _ => k))
  (at level 100, right associativity).

Definition fault {A} : M A := fun _ => Fault.

(** ** The C library, as far as error.c uses it *)

(** [size_t] is 64 bits wide; its arithmetic wraps around. *)
Definition SIZE_MAX : Z := 18446744073709551615.
Definition size_wrap (z : Z) : Z := z mod (SIZE_MAX + 1).
Definition size_add (a b : Z) : Z := size_wrap (a + b).
Definition size_mul (a b : Z) : Z := size_wrap (a * b).
Definition sizeof_char : Z := 1.

Definition ENOENT : Z := 2.
Definition EBADF : Z := 9.
Definition ENOMEM : Z := 12.
Definition EACCES : Z := 13.
Definition ENOTTY : Z := 25.

Definition decimal (z : Z) : cstr := lit (NilZero.string_of_int (Z.to_int z)).

Definition strerror (e : Z) : cstr :=
  if e =? 0 then lit "Success"
  else if e =? ENOENT then lit "No such file or directory"
  else if e =? EBADF then lit "Bad file descriptor"
  else if e =? ENOMEM then lit "Cannot allocate memory"
  else if e =? EACCES then lit "Permission denied"
  else if e =? ENOTTY then lit "Inappropriate ioctl for device"
  else lit "Unknown error " ++ decimal e.

(** [isatty(fd)]: 1 when [fd] refers to a terminal and [errno] is left
    alone; otherwise 0, and [errno] is set to indicate the error (isatty(3):
    "otherwise 0 is returned, and errno is set to indicate the error";
    [ENOTTY] for an open descriptor that is not a terminal).  Descriptors
    are taken to be open. *)
Definition isatty (fd : Z) : M bool :=
  fun st =>
    if bool_decide (fd ∈ ttys st) then Ret true st
    else Ret false (set_errno st ENOTTY).

Definition fflush_stdout : M unit :=
  fun st => Ret tt (emit st EvFlushStdout).

Definition get_errno : M Z := fun st => Ret (errno st) st.

Definition exit {A} (status : Z) : M A := fun st => Exit status st.

(** [malloc(n)]: a fresh block of [n] indeterminate bytes, or the null
    pointer with [errno = ENOMEM] when the request cannot be met. *)
Definition malloc (n : Z) : M pointer :=
  fun st =>
    if n <=? mem_avail st then
      let b := fresh (dom (mem st)) in
      Ret (Ptr b 0) (set_mem st (<[b := replicate (Z.to_nat n) None]> (mem st)) (mem_avail st - n))
    else Ret NULL (set_errno st ENOMEM).

(** [realloc(vp, n)]: on success the contents move to a fresh block and the
    old one is released; on failure the old block is left untouched. *)
Definition realloc (vp : pointer) (n : Z) : M pointer :=
  match vp with
  | NULL => malloc n
  | Ptr b (S _) => fault
  | Ptr b O =>
      fun st =>
        match mem st !! b with
        | None => Fault
        | Some cells =>
            let old := Z.of_nat (length cells) in
            if n <=? mem_avail st + old then
              let b' := fresh (dom (mem st)) in
              let cells' := take (Z.to_nat n) (cells ++ replicate (Z.to_nat n) None) in
              Ret (Ptr b' 0) (set_mem st (<[b' := cells']> (delete b (mem st))) (mem_avail st + old - n))
            else Ret NULL (set_errno st ENOMEM)
        end
  end.

Definition free (p : pointer) : M unit :=
  match p with
  | NULL => ret tt
  | Ptr b (S _) => fault
  | Ptr b O =>
      fun st =>
        match mem st !! b with
        | None => Fault
        | Some cells => Ret tt (set_mem st (delete b (mem st)) (mem_avail st + Z.of_nat (length cells)))
        end
  end.

Definition strlen (s : pointer) : M Z :=
  fun st =>
    match load_cstr (mem st) s with
    | Some str => Ret (Z.of_nat (length str)) st
    | None => Fault
    end.

Definition strcpy (t s : pointer) : M unit :=
  fun st =>
    match load_cstr (mem st) s with
    | None => Fault
    | Some str =>
        match store_bytes (mem st) t (str ++ [NUL]) with
        | Some h => Ret tt (set_mem st h (mem_avail st))
        | None => Fault
        end
    end.

(** Index of the last occurrence of [c] in [l]. *)
Fixpoint rindex (c : ascii) (l : cstr) : option nat :=
  match l with
  | [] => None
  | x :: rest =>
      match rindex c rest with
      | Some i => Some (S i)
      | None => if Ascii.eqb x c then Some O else None
      end
  end.

Definition strrchr (s : pointer) (c : ascii) : M pointer :=
  fun st =>
    match s, load_cstr (mem st) s with
    | Ptr b o, Some str =>
        if Ascii.eqb c NUL then Ret (Ptr b (o + length str)) st
        else match rindex c str with
             | Some i => Ret (Ptr b (o + i)) st
             | None => Ret NULL st
             end
    | _, _ => Fault
    end.

(** *** printf formatting *)

(** A variadic argument: an integer, a pointer into memory, or a pointer to
    a string constant (given by its contents). *)
Inductive Arg : Type :=
  | AInt (z : Z)
  | AStr (p : pointer)
  | ALit (s : cstr).

Inductive Directive : Type :=
  | DText
  | DPercent
  | DPrecision (n : nat).

Definition digit_of (c : ascii) : option nat :=
  let n := nat_of_ascii c in
  if ((48 <=? n) && (n <=? 57))%nat then Some (n - 48)%nat else None.

Definition conv_s (h : gmap block (list cell)) (prec : option nat) (a : Arg) : option cstr :=
  match a, prec with
  | ALit s, None => Some s
  | ALit s, Some n => Some (take n s)
  | AStr p, None => load_cstr h p
  | AStr p, Some n => load_cstr_n h n p
  | AInt _, _ => None
  end.

Definition conv_d (a : Arg) : option cstr :=
  match a with
  | AInt z => Some (decimal z)
  | _ => None
  end.

(** [%u] reads an [unsigned int]: 32 bits. *)
Definition conv_u (a : Arg) : option cstr :=
  match a with
  | AInt z => Some (decimal (z mod 4294967296))
  | _ => None
  end.

Definition then_text (t r : option cstr) : option cstr :=
  match t, r with
  | Some t', Some r' => Some (t' ++ r')
  | _, _ => None
  end.

(** Renders [fmt] with [args]; [None] where C leaves the call undefined
    (a directive without a matching argument, an unreadable string) or
    where the directive is outside the fragment modelled here. *)
Fixpoint vformat (h : gmap block (list cell)) (d : Directive) (fmt : cstr) (args : list Arg)
  : option cstr :=
  match fmt with
  | [] => match d with DText => Some [] | _ => None end
  | c :: rest =>
      match d with
      | DText =>
          if Ascii.eqb c "%" then vformat h DPercent rest args
          else then_text (Some [c]) (vformat h DText rest args)
      | DPercent =>
          if Ascii.eqb c "%" then then_text (Some [c]) (vformat h DText rest args)
          else if Ascii.eqb c "." then vformat h (DPrecision 0) rest args
          else
            match args with
            | [] => None
            | a :: args' =>
                if Ascii.eqb c "s" then then_text (conv_s h None a) (vformat h DText rest args')
                else if Ascii.eqb c "d" then then_text (conv_d a) (vformat h DText rest args')
                else if Ascii.eqb c "u" then then_text (conv_u a) (vformat h DText rest args')
                else None
            end
      | DPrecision n =>
          match digit_of c with
          | Some k => vformat h (DPrecision (10 * n + k)) rest args
          | None =>
              match args with
              | [] => None
              | a :: args' =>
                  if Ascii.eqb c "s"
                  then then_text (conv_s h (Some n) a) (vformat h DText rest args')
                  else None
              end
          end
      end
  end.

Definition sprintf (h : gmap block (list cell)) (fmt : cstr) (args : list Arg) : option cstr :=
  vformat h DText fmt args.

(** [fprintf(stderr, fmt, ...)] and [vfprintf(stderr, fmt, args)]. *)
Definition fprintf_stderr (fmt : cstr) (args : list Arg) : M unit :=
  fun st =>
    match sprintf (mem st) fmt args with
    | Some text => Ret tt (emit st (EvStderr text))
    | None => Fault
    end.

Definition vfprintf_stderr (fmt : cstr) (args : list Arg) : M unit :=
  fprintf_stderr fmt args.

(** ** error.c *)

(** *** Error routines *)

Definition get_position : M SourcePos := fun st => Ret (position st) st.

Definition getprogname : M pointer := fun st => Ret (pname st) st.

Definition getsrcname : M pointer := fun st => Ret (sname st) st.

(** [fmt[0] != '\0' && fmt[strlen(fmt)-1] == ':'] *)
Definition fmt_ends_in_colon (fmt : cstr) : bool :=
  negb (Ascii.eqb (nth 0 fmt NUL) NUL)
  && Ascii.eqb (nth (length fmt - 1) fmt NUL) COLON.

Definition _weprintf (pre : option cstr) (pos : option SourcePos) (fmt : cstr)
    (args : list Arg) : M unit :=
  istty <- isatty 2 ;;
  let ac_end := if istty then ASCII_RESET else [] in
  let ac_src := if istty then ASCII_BOLD_WHITE else [] in
  let ac_pos := if istty then ASCII_BOLD_WHITE else [] in
  progname <- getprogname ;;
  srcname <- getsrcname ;;
  fflush_stdout ;;;
  match progname with
  | NULL => ret tt
  | Ptr _ _ => fprintf_stderr (lit "%s:") [AStr progname]
  end ;;;
  match srcname with
  | NULL => ret tt
  | Ptr _ _ => fprintf_stderr (lit " %s%s:%s") [ALit ac_src; AStr srcname; ALit ac_end]
  end ;;;
  match pos with
  | None => ret tt
  | Some p => fprintf_stderr (lit "%s%d:%d%s:") [ALit ac_pos; AInt (line p); AInt (col p); ALit ac_end]
  end ;;;
  match pre with
  | Some tag => fprintf_stderr (lit " %s ") [ALit tag]
  | None => fprintf_stderr (lit " ") []
  end ;;;
  vfprintf_stderr fmt args ;;;
  (if fmt_ends_in_colon fmt
   then e <- get_errno ;; fprintf_stderr (lit " %s") [ALit (strerror e)]
   else ret tt) ;;;
  fprintf_stderr [NEWLINE] [].

Definition eprintf (fmt : cstr) (args : list Arg) : M unit :=
  istty <- isatty 2 ;;
  let pre := if istty then ASCII_BOLD_RED ++ lit "Error:" ++ ASCII_RESET else lit "Error:" in
  _weprintf (Some pre) None fmt args ;;;
  exit 2.

Definition leprintf (fmt : cstr) (args : list Arg) : M unit :=
  istty <- isatty 2 ;;
  let pre := if istty then ASCII_BOLD_RED ++ lit "Error:" ++ ASCII_RESET else lit "Error:" in
  pos <- get_position ;;
  _weprintf (Some pre) (Some pos) fmt args ;;;
  exit 2.

Definition weprintf (fmt : cstr) (args : list Arg) : M unit :=
  istty <- isatty 2 ;;
  let pre := if istty then ASCII_BOLD_YELLOW ++ lit "Warning:" ++ ASCII_RESET else lit "Warning:" in
  _weprintf (Some pre) None fmt args.

Definition teprintf (tag : option cstr) (fmt : cstr) (args : list Arg) : M unit :=
  pos <- get_position ;;
  _weprintf tag (Some pos) fmt args ;;;
  exit 3.

(** *** Memory and string routines *)

Definition estrdup_failed : cstr :=
  lit "estrdup(" ++ [DQUOTE] ++ lit "%.20s" ++ [DQUOTE] ++ lit ") failed:".

Definition estrdup (s : pointer) : M pointer :=
  n <- strlen s ;;
  t <- malloc (size_mul (size_add n 1) sizeof_char) ;;
  match t with
  | NULL => eprintf estrdup_failed [AStr s]
  | Ptr _ _ => ret tt
  end ;;;
  strcpy t s ;;;
  ret t.

Definition westrdup (s : pointer) : M pointer :=
  n <- strlen s ;;
  t <- malloc (size_mul (size_add n 1) sizeof_char) ;;
  match t with
  | NULL => weprintf estrdup_failed [AStr s]
  | Ptr _ _ => ret tt
  end ;;;
  strcpy t s ;;;
  ret t.

Definition emalloc (n : Z) : M pointer :=
  p <- malloc n ;;
  match p with
  | NULL => eprintf (lit "malloc of %u bytes failed:") [AInt n]
  | Ptr _ _ => ret tt
  end ;;;
  ret p.

Definition wemalloc (n : Z) : M pointer :=
  p <- malloc n ;;
  match p with
  | NULL => weprintf (lit "malloc of %u bytes failed:") [AInt n]
  | Ptr _ _ => ret tt
  end ;;;
  ret p.

Definition erealloc (vp : pointer) (n : Z) : M pointer :=
  p <- realloc vp n ;;
  match p with
  | NULL => eprintf (lit "realloc of %u bytes failed:") [AInt n]
  | Ptr _ _ => ret tt
  end ;;;
  ret p.

Definition werealloc (vp : pointer) (n : Z) : M pointer :=
  p <- realloc vp n ;;
  match p with
  | NULL => weprintf (lit "realloc of %u bytes failed:") [AInt n]
  | Ptr _ _ => ret tt
  end ;;;
  ret p.

(** *** Program and source names (the build without [__APPLE__]) *)

(** [c++] on a pointer returned by [strrchr]. *)
Definition ptr_succ (p : pointer) : pointer :=
  match p with
  | NULL => NULL
  | Ptr b o => Ptr b (S o)
  end.

Definition setprogname (s : pointer) : M unit :=
  c <- strrchr s SLASH ;;
  let c := match c with NULL => s | Ptr _ _ => ptr_succ c end in
  t <- estrdup c ;;
  fun st => Ret tt (set_pname st t).

Definition setsrcname (s : pointer) : M unit :=
  c <- strrchr s SLASH ;;
  let c := match c with NULL => s | Ptr _ _ => ptr_succ c end in
  t <- estrdup c ;;
  fun st => Ret tt (set_sname st t).

Definition freeprogname : M unit :=
  fun st => free (pname st) st.

Definition freesrcname : M unit :=
  fun st => free (sname st) st.

(** ** Sample runs *)

(** A block holding the string [s] and its terminator. *)
Definition cstring_block (s : cstr) : list cell := Some <$> (s ++ [NUL]).

(** A state with no name set, whose only block holds a path; [tty] tells
    whether descriptor 2 is a terminal. *)
Definition st0 (tty : bool) (avail : Z) (e : Z) : State :=
  mkState (<[1%positive := cstring_block (lit "/a/b/c.src")]> ∅) avail e
          (if tty then [2] else []) (mkPos 3 14) NULL NULL [].

(** A state whose only block holds a path that ends in the separator. *)
Definition st_dir : State :=
  mkState (<[1%positive := cstring_block (lit "src/")]> ∅) 8 0 [] (mkPos 1 1)
          NULL (Ptr 1%positive 0) [].

(** A state in which both names are set: program [cc], source [c.src]. *)
Definition st_named (tty : bool) (e : Z) : State :=
  mkState (<[2%positive := cstring_block (lit "c.src")]>
             (<[1%positive := cstring_block (lit "cc")]> ∅))
          64 e (if tty then [2] else []) (mkPos 3 14)
          (Ptr 1%positive 0) (Ptr 2%positive 0) [].

Definition run_text {A} (o : Outcome A) : option cstr :=
  match o with
  | Ret _ st => Some (stderr_text (trace st))
  | Exit _ st => Some (stderr_text (trace st))
  | Fault => None
  end.

(** ** What a diagnostic looks like *)

(** The text of a name pointer: [Some None] when the name is unset (null),
    [Some (Some s)] when it points to the string [s], [None] when it
    dangles. *)
Definition load_name (h : gmap block (list cell)) (p : pointer) : option (option cstr) :=
  match p with
  | NULL => Some None
  | Ptr _ _ => option_map Some (load_cstr h p)
  end.

Definition is_tty (st : State) (fd : Z) : bool := bool_decide (fd ∈ ttys st).

Definition after_isatty (st : State) (fd : Z) : State :=
  if is_tty st fd then st else set_errno st ENOTTY.

Definition emits (st : State) (evs : list Event) : State :=
  mkState (mem st) (mem_avail st) (errno st) (ttys st) (position st) (pname st) (sname st)
          (trace st ++ evs).

Definition colour (istty : bool) (c : cstr) : cstr := if istty then c else [].

(** [part] between the escape sequence [esc] and the reset sequence when
    the stream is a terminal, and [part] alone otherwise. *)
Definition wrap (istty : bool) (esc part : cstr) : cstr :=
  colour istty esc ++ part ++ colour istty ASCII_RESET.

Definition opt_event (t : option cstr) : list Event :=
  match t with
  | Some text => [EvStderr text]
  | None => []
  end.

(** The events of one diagnostic, part by part, in the order in which the
    description of the shared routine lists them.  [colon] tells whether the
    system error text is appended, and [e] is the value of [errno] then. *)
Definition diagnostic (istty : bool) (prog src : option cstr) (pos : option SourcePos)
    (pre : option cstr) (body : cstr) (colon : bool) (e : Z) : list Event :=
  [EvFlushStdout]
  ++ opt_event (n ← prog; Some (n ++ lit ":"))
  ++ opt_event (n ← src; Some (lit " " ++ wrap istty ASCII_BOLD_WHITE (n ++ lit ":")))
  ++ opt_event (p ← pos;
       Some (wrap istty ASCII_BOLD_WHITE (decimal (line p) ++ lit ":" ++ decimal (col p))
             ++ lit ":"))
  ++ [EvStderr (match pre with Some tag => lit " " ++ tag ++ lit " " | None => lit " " end)]
  ++ [EvStderr body]
  ++ (if colon then [EvStderr (lit " " ++ strerror e)] else [])
  ++ [EvStderr [NEWLINE]].

(** The fixed severity tags. *)
Definition error_tag (istty : bool) : cstr := wrap istty ASCII_BOLD_RED (lit "Error:").

Definition warning_tag (istty : bool) : cstr := wrap istty ASCII_BOLD_YELLOW (lit "Warning:").

(** A diagnostic can be printed without undefined behaviour: both name
    pointers are null or valid, and the format matches its arguments. *)
Definition printable (st : State) (fmt : cstr) (args : list Arg) : Prop :=
  is_Some (load_name (mem st) (pname st))
  ∧ is_Some (load_name (mem st) (sname st))
  ∧ is_Some (sprintf (mem st) fmt args).

(** ** Vocabulary of the statements *)

Definition never_exits {A} (m : M A) : Prop :=
  forall st status st', m st <> Exit status st'.

Definition never_returns {A} (m : M A) : Prop :=
  forall st a st', m st <> Ret a st'.

(** [base] is the final component of [path]: it holds no separator, and it
    is either the whole path or what follows a separator in it. *)
Definition final_component (path base : cstr) : Prop :=
  (SLASH ∉ base) ∧ (path = base ∨ ∃ dir, path = dir ++ SLASH :: base).

(** The pointer that [setprogname] and [setsrcname] hand to [estrdup]. *)
Definition name_start (s c : pointer) : pointer :=
  match c with
  | NULL => s
  | Ptr _ _ => ptr_succ c
  end.

(** Closes [c ∉ l] for a character and a list both given in full. *)
Ltac not_in_literal :=
  let H := fresh in
  intros H; repeat (apply elem_of_cons in H as [H|H]; [discriminate H|]);
  now apply elem_of_nil in H.

(** The body of the message printed when a duplication of [str] fails. *)
Definition estrdup_message (str : cstr) : cstr :=
  lit "estrdup(" ++ [DQUOTE] ++ take 20 str ++ [DQUOTE] ++ lit ") failed:".

(** The format's last character is a colon. *)
Definition last_char_is_colon (fmt : cstr) : bool :=
  match last fmt with
  | Some c => Ascii.eqb c COLON
  | None => false
  end.

Definition escape_free (t : cstr) : Prop := ESC_CHAR ∉ t.

Definition option_escape_free (o : option cstr) : Prop :=
  ∀ t, o = Some t -> escape_free t.

(** The events a call added to the trace, and the text among them. *)
Definition added (st st' : State) : list Event := drop (length (trace st)) (trace st').

Definition output_since (st st' : State) : cstr := stderr_text (added st st').

(** [part] occurs in [out] between [esc] and the reset sequence. *)
Definition wrapped_in (esc part out : cstr) : Prop :=
  ∃ before after, out = before ++ esc ++ part ++ ASCII_RESET ++ after.

Fixpoint is_prefix (p l : cstr) : bool :=
  match p, l with
  | [], _ => true
  | _ :: _, [] => false
  | x :: p', y :: l' => Ascii.eqb x y && is_prefix p' l'
  end.

Fixpoint has_infix (needle hay : cstr) : bool :=
  is_prefix needle hay
  || match hay with
     | [] => false
     | _ :: hay' => has_infix needle hay'
     end.

(** ** Further states and vocabulary *)

(** A state whose only block holds a string of 26 characters. *)
Definition st_long : State :=
  mkState (<[1%positive := cstring_block (lit "abcdefghijklmnopqrstuvwxyz")]> ∅) 10 0 []
          (mkPos 1 1) NULL NULL [].

(** A state with the command line in memory: a program path and a source
    path, no name set yet. *)
Definition st_argv : State :=
  mkState (<[2%positive := cstring_block (lit "tests/t1.src")]>
             (<[1%positive := cstring_block (lit "./bin/cc")]> ∅))
          64 0 [] (mkPos 1 1) NULL NULL [].

(** The state after a name was set and released. *)
Definition st_released : State :=
  mkState (<[1%positive := cstring_block (lit "/a/b/c.src")]> ∅) 100 0 [] (mkPos 3 14)
          NULL (Ptr 2%positive 0) [].

Definition newline_free (t : cstr) : Prop := NEWLINE ∉ t.

Definition option_newline_free (o : option cstr) : Prop :=
  ∀ t, o = Some t -> newline_free t.

(** * Properties *)

(** ** The monad and the state *)

Lemma bind_Ret {A B} (m : M A) (k : A -> M B) st a st' :
  m st = Ret a st' -> bind m k st = k a st'.
Proof. intros H. unfold bind. now rewrite H. Qed.

Lemma bind_Fault {A B} (m : M A) (k : A -> M B) st :
  m st = Fault -> bind m k st = Fault.
Proof. intros H. unfold bind. now rewrite H. Qed.

Lemma bind_Exit {A B} (m : M A) (k : A -> M B) st status st' :
  m st = Exit status st' -> bind m k st = Exit status st'.
Proof. intros H. unfold bind. now rewrite H. Qed.

Lemma emits_nil st : emits st [] = st.
Proof. destruct st. unfold emits. cbn. now rewrite app_nil_r. Qed.

Lemma emit_emits st evs e : emit (emits st evs) e = emits st (evs ++ [e]).
Proof. unfold emit, emits. cbn. now rewrite <- app_assoc. Qed.

Lemma emits_emits st evs evs' : emits (emits st evs) evs' = emits st (evs ++ evs').
Proof. unfold emits. cbn. now rewrite <- app_assoc. Qed.

Lemma isatty_run fd st : isatty fd st = Ret (is_tty st fd) (after_isatty st fd).
Proof. unfold isatty, after_isatty, is_tty. now destruct (bool_decide _). Qed.

Lemma after_isatty_mem st fd : mem (after_isatty st fd) = mem st.
Proof. unfold after_isatty. now destruct (is_tty st fd). Qed.

Lemma after_isatty_pname st fd : pname (after_isatty st fd) = pname st.
Proof. unfold after_isatty. now destruct (is_tty st fd). Qed.

Lemma after_isatty_sname st fd : sname (after_isatty st fd) = sname st.
Proof. unfold after_isatty. now destruct (is_tty st fd). Qed.

Lemma after_isatty_position st fd : position (after_isatty st fd) = position st.
Proof. unfold after_isatty. now destruct (is_tty st fd). Qed.

Lemma after_isatty_trace st fd : trace (after_isatty st fd) = trace st.
Proof. unfold after_isatty. now destruct (is_tty st fd). Qed.

Lemma after_isatty_is_tty st fd fd' : is_tty (after_isatty st fd) fd' = is_tty st fd'.
Proof. unfold after_isatty. now destruct (is_tty st fd). Qed.

Lemma after_isatty_idem st fd : after_isatty (after_isatty st fd) fd = after_isatty st fd.
Proof.
  unfold after_isatty at 1. rewrite after_isatty_is_tty.
  unfold after_isatty. now destruct (is_tty st fd).
Qed.

(** [errno] as the diagnostic routine finds it after asking [isatty]. *)
Lemma after_isatty_errno st fd :
  errno (after_isatty st fd) = if is_tty st fd then errno st else ENOTTY.
Proof. unfold after_isatty. now destruct (is_tty st fd). Qed.

Lemma fprintf_stderr_run fmt args st text :
  sprintf (mem st) fmt args = Some text ->
  fprintf_stderr fmt args st = Ret tt (emit st (EvStderr text)).
Proof. intros H. unfold fprintf_stderr. now rewrite H. Qed.

Lemma fprintf_stderr_no_exit fmt args st status st' :
  fprintf_stderr fmt args st <> Exit status st'.
Proof. unfold fprintf_stderr. now destruct (sprintf _ _ _). Qed.

Lemma fprintf_emits fmt args st evs text :
  sprintf (mem st) fmt args = Some text ->
  fprintf_stderr fmt args (emits st evs) = Ret tt (emits st (evs ++ [EvStderr text])).
Proof.
  intros H. rewrite (fprintf_stderr_run fmt args (emits st evs) text) by exact H.
  now rewrite emit_emits.
Qed.

Lemma load_name_inv h p name :
  load_name h p = Some name ->
  match p with
  | NULL => name = None
  | Ptr _ _ => exists s, name = Some s /\ load_cstr h p = Some s
  end.
Proof.
  destruct p as [|b o]; cbn.
  - now intros [= <-].
  - destruct (load_cstr h (Ptr b o)) as [s|]; cbn; [|discriminate].
    intros [= <-]. now exists s.
Qed.

(** The shared routine: the state it leaves and the events it adds. *)
Lemma _weprintf_run pre pos fmt args st prog src body :
  load_name (mem st) (pname st) = Some prog ->
  load_name (mem st) (sname st) = Some src ->
  sprintf (mem st) fmt args = Some body ->
  _weprintf pre pos fmt args st =
  Ret tt (emits (after_isatty st 2)
            (diagnostic (is_tty st 2) prog src pos pre body (fmt_ends_in_colon fmt)
                        (errno (after_isatty st 2)))).
Proof.
  intros Hp Hs Hb. unfold _weprintf.
  rewrite (bind_Ret _ _ _ _ _ (isatty_run 2 st)).
  pose proof (after_isatty_mem st 2) as Hm.
  pose proof (after_isatty_pname st 2) as Hpn.
  pose proof (after_isatty_sname st 2) as Hsn.
  set (st1 := after_isatty st 2) in *.
  set (tty := is_tty st 2).
  rewrite <- Hm in Hp, Hs, Hb. rewrite <- Hpn in Hp. rewrite <- Hsn in Hs.
  clear Hm Hpn Hsn.
  unfold diagnostic, getprogname, getsrcname, fflush_stdout, vfprintf_stderr.
  cbn beta. unfold bind at 1 2 3.
  change (emit st1 EvFlushStdout) with (emits st1 [EvFlushStdout]).
  apply load_name_inv in Hp, Hs.
  destruct (pname st1) as [|bp op]; [subst prog | destruct Hp as (np & -> & Hnp)];
  (destruct (sname st1) as [|bs os]; [subst src | destruct Hs as (ns & -> & Hns)]);
  destruct pos as [p|], pre as [tag|], (fmt_ends_in_colon fmt);
  repeat (erewrite bind_Ret;
    [| first [ apply fprintf_emits; exact Hb
             | unfold bind, get_errno; apply fprintf_emits; unfold sprintf;
               cbn -[load_cstr]; rewrite ?Hnp, ?Hns; cbn -[load_cstr]; reflexivity
             | reflexivity ]]);
  (erewrite fprintf_emits by reflexivity);
  do 2 f_equal; unfold wrap; cbn; rewrite <- ?app_assoc; cbn; rewrite ?app_nil_r; reflexivity.
Qed.

(** ** The four reporting routines *)

Section Reporting.
Variables (fmt : cstr) (args : list Arg) (st : State).
Variables (prog src : option cstr) (body : cstr).
Hypothesis Hprog : load_name (mem st) (pname st) = Some prog.
Hypothesis Hsrc : load_name (mem st) (sname st) = Some src.
Hypothesis Hbody : sprintf (mem st) fmt args = Some body.

Let tty := is_tty st 2.
Let st1 := after_isatty st 2.

Lemma _weprintf_after_isatty pre pos :
  _weprintf pre pos fmt args st1 =
  Ret tt (emits st1 (diagnostic tty prog src pos pre body (fmt_ends_in_colon fmt) (errno st1))).
Proof.
  subst st1 tty.
  rewrite (_weprintf_run pre pos fmt args (after_isatty st 2) prog src body).
  - now rewrite after_isatty_idem, after_isatty_is_tty.
  - now rewrite after_isatty_mem, after_isatty_pname.
  - now rewrite after_isatty_mem, after_isatty_sname.
  - now rewrite after_isatty_mem.
Qed.

Lemma eprintf_run :
  eprintf fmt args st =
  Exit 2 (emits st1 (diagnostic tty prog src None (Some (error_tag tty)) body
                                (fmt_ends_in_colon fmt) (errno st1))).
Proof.
  unfold eprintf. rewrite (bind_Ret _ _ _ _ _ (isatty_run 2 st)).
  fold st1 tty. erewrite bind_Ret by apply _weprintf_after_isatty.
  unfold exit, error_tag, wrap, colour. now destruct tty.
Qed.

Lemma leprintf_run :
  leprintf fmt args st =
  Exit 2 (emits st1 (diagnostic tty prog src (Some (position st)) (Some (error_tag tty)) body
                                (fmt_ends_in_colon fmt) (errno st1))).
Proof.
  unfold leprintf. rewrite (bind_Ret _ _ _ _ _ (isatty_run 2 st)).
  fold st1 tty. unfold bind at 1, get_position.
  erewrite bind_Ret by apply _weprintf_after_isatty.
  subst st1. rewrite after_isatty_position.
  unfold exit, error_tag, wrap, colour. now destruct tty.
Qed.

Lemma weprintf_run :
  weprintf fmt args st =
  Ret tt (emits st1 (diagnostic tty prog src None (Some (warning_tag tty)) body
                                (fmt_ends_in_colon fmt) (errno st1))).
Proof.
  unfold weprintf. rewrite (bind_Ret _ _ _ _ _ (isatty_run 2 st)).
  fold st1 tty. rewrite _weprintf_after_isatty.
  unfold warning_tag, wrap, colour. now destruct tty.
Qed.

Lemma teprintf_run tag :
  teprintf tag fmt args st =
  Exit 3 (emits st1 (diagnostic tty prog src (Some (position st)) tag body
                                (fmt_ends_in_colon fmt) (errno st1))).
Proof.
  unfold teprintf. unfold bind at 1, get_position.
  erewrite bind_Ret by (apply _weprintf_run; eassumption).
  reflexivity.
Qed.
End Reporting.

(** *** Which outcomes a call can have *)

Lemma never_exits_bind {A B} (m : M A) (k : A -> M B) :
  never_exits m -> (forall a, never_exits (k a)) -> never_exits (bind m k).
Proof.
  intros Hm Hk st status st'. unfold bind.
  destruct (m st) as [a st1| status1 st1|] eqn:E.
  - apply Hk.
  - now apply Hm in E.
  - discriminate.
Qed.

Lemma never_returns_bind {A B} (m : M A) (k : A -> M B) :
  (forall a, never_returns (k a)) -> never_returns (bind m k).
Proof.
  intros Hk st b st'. unfold bind.
  destruct (m st) as [a st1| status1 st1|]; [apply Hk | discriminate | discriminate].
Qed.

Lemma never_exits_ret {A} (a : A) : never_exits (ret a).
Proof. now intros st status st'. Qed.

Lemma never_exits_isatty fd : never_exits (isatty fd).
Proof. intros st status st'. now rewrite isatty_run. Qed.

Lemma never_exits_fprintf fmt args : never_exits (fprintf_stderr fmt args).
Proof. intros st status st'. apply fprintf_stderr_no_exit. Qed.

Lemma never_returns_exit {A} status : never_returns (@exit A status).
Proof. now intros st a st'. Qed.

Lemma never_exits__weprintf pre pos fmt args : never_exits (_weprintf pre pos fmt args).
Proof.
  unfold _weprintf.
  repeat (apply never_exits_bind; [|intros ?]);
    repeat match goal with
           | |- never_exits (match ?x with _ => _ end) => destruct x
           | |- never_exits (bind _ _) => apply never_exits_bind; [|intros ?]
           end;
    try apply never_exits_ret; try apply never_exits_fprintf;
    try apply never_exits_isatty; try (now intros ? ? ?).
Qed.

Lemma never_exits_weprintf fmt args : never_exits (weprintf fmt args).
Proof.
  unfold weprintf. apply never_exits_bind; [apply never_exits_isatty|].
  intros istty. apply never_exits__weprintf.
Qed.

Lemma never_returns_eprintf fmt args : never_returns (eprintf fmt args).
Proof.
  unfold eprintf. do 2 (apply never_returns_bind; intros ?). apply never_returns_exit.
Qed.

Lemma never_returns_leprintf fmt args : never_returns (leprintf fmt args).
Proof.
  unfold leprintf. do 3 (apply never_returns_bind; intros ?). apply never_returns_exit.
Qed.

Lemma never_returns_teprintf tag fmt args : never_returns (teprintf tag fmt args).
Proof.
  unfold teprintf. do 2 (apply never_returns_bind; intros ?). apply never_returns_exit.
Qed.

(** A call that prints with the shared routine and then calls [exit] can
    end the process with that status only. *)
Lemma exit_after__weprintf pre pos fmt args n st status st' :
  (_weprintf pre pos fmt args ;;; @exit unit n) st = Exit status st' -> status = n.
Proof.
  unfold bind.
  destruct (_weprintf pre pos fmt args st) as [[] st1|status1 st1|] eqn:E.
  - unfold exit. now intros [= <- _].
  - now apply never_exits__weprintf in E.
  - discriminate.
Qed.

Lemma eprintf_exit_status fmt args st status st' :
  eprintf fmt args st = Exit status st' -> status = 2.
Proof.
  unfold eprintf. rewrite (bind_Ret _ _ _ _ _ (isatty_run 2 st)).
  apply exit_after__weprintf.
Qed.

Lemma leprintf_exit_status fmt args st status st' :
  leprintf fmt args st = Exit status st' -> status = 2.
Proof.
  unfold leprintf. rewrite (bind_Ret _ _ _ _ _ (isatty_run 2 st)).
  unfold bind at 1, get_position. apply exit_after__weprintf.
Qed.

Lemma teprintf_exit_status tag fmt args st status st' :
  teprintf tag fmt args st = Exit status st' -> status = 3.
Proof.
  unfold teprintf. unfold bind at 1, get_position. apply exit_after__weprintf.
Qed.

(** ** Strings in memory *)

Lemma scan_cstr_inv cells s :
  scan_cstr cells = Some s ->
  (NUL ∉ s) ∧ (∃ rest, cells = (Some <$> s) ++ Some NUL :: rest).
Proof.
  revert s. induction cells as [|[c|] cells IH]; intros s; cbn; try discriminate.
  destruct (Ascii.eqb_spec c NUL) as [->|Hc].
  - intros [= <-]. split; [apply not_elem_of_nil|]. now exists cells.
  - destruct (scan_cstr cells) as [s'|]; [|discriminate].
    intros [= <-]. destruct (IH s' eq_refl) as (Hn & rest & ->).
    split.
    + rewrite not_elem_of_cons. split; [congruence | exact Hn].
    + now exists rest.
Qed.

Lemma scan_cstr_string s rest :
  NUL ∉ s -> scan_cstr ((Some <$> s) ++ Some NUL :: rest) = Some s.
Proof.
  induction s as [|c s IH]; intros Hn; cbn.
  - reflexivity.
  - apply not_elem_of_cons in Hn as [Hc Hn].
    destruct (Ascii.eqb_spec c NUL) as [->|_]; [congruence|].
    now rewrite (IH Hn).
Qed.

Lemma scan_cstr_n_take n cells s :
  scan_cstr cells = Some s -> scan_cstr_n n cells = Some (take n s).
Proof.
  revert cells s. induction n as [|n IH]; intros cells s; [reflexivity|].
  destruct cells as [|[c|] cells]; cbn; try discriminate.
  destruct (Ascii.eqb c NUL).
  - now intros [= <-].
  - destruct (scan_cstr cells) as [s'|] eqn:E; [|discriminate].
    intros [= <-]. now rewrite (IH _ _ E).
Qed.

Lemma load_cstr_n_take h n p s :
  load_cstr h p = Some s -> load_cstr_n h n p = Some (take n s).
Proof.
  unfold load_cstr, load_cstr_n. destruct (cells_at h p); [|discriminate].
  apply scan_cstr_n_take.
Qed.

(** A readable string is a run of non-null characters, then a terminator,
    inside one block. *)
Lemma load_cstr_inv (h : gmap block (list cell)) b o s :
  load_cstr h (Ptr b o) = Some s ->
  (NUL ∉ s) ∧ (∃ cells rest,
    h !! b = Some cells ∧ (o <= length cells)%nat
    ∧ drop o cells = (Some <$> s) ++ Some NUL :: rest).
Proof.
  unfold load_cstr, cells_at.
  destruct (h !! b) as [cells|]; [|discriminate].
  destruct (Nat.leb_spec o (length cells)) as [Hle|]; [|discriminate].
  intros H. apply scan_cstr_inv in H as (Hn & rest & Hd).
  split; [exact Hn|]. now exists cells, rest.
Qed.

Lemma load_cstr_intro (h : gmap block (list cell)) b o s cells rest :
  NUL ∉ s -> h !! b = Some cells -> (o <= length cells)%nat ->
  drop o cells = (Some <$> s) ++ Some NUL :: rest ->
  load_cstr h (Ptr b o) = Some s.
Proof.
  intros Hn Hb Hle Hd. unfold load_cstr, cells_at. rewrite Hb.
  destruct (Nat.leb_spec o (length cells)); [|lia].
  rewrite Hd. now apply scan_cstr_string.
Qed.

(** Advancing a string pointer by [i] characters drops [i] characters. *)
Lemma load_cstr_advance h b o s i :
  load_cstr h (Ptr b o) = Some s -> (i <= length s)%nat ->
  load_cstr h (Ptr b (o + i)) = Some (drop i s).
Proof.
  intros H Hi. apply load_cstr_inv in H as (Hn & cells & rest & Hb & Hle & Hd).
  assert (Hlen : (length (drop o cells) = length s + S (length rest))%nat).
  { rewrite Hd, length_app, length_fmap. reflexivity. }
  rewrite length_drop in Hlen.
  apply (load_cstr_intro h b (o + i) (drop i s) cells rest).
  - intros Hin. apply Hn. rewrite <- (take_drop i s). apply elem_of_app. now right.
  - exact Hb.
  - lia.
  - rewrite <- drop_drop, Hd, drop_app_le by (rewrite length_fmap; lia).
    now rewrite fmap_drop.
Qed.

Lemma load_cstr_other_block h b o b' cells :
  b ≠ b' -> load_cstr (<[b' := cells]> h) (Ptr b o) = load_cstr h (Ptr b o).
Proof.
  intros Hne. unfold load_cstr, cells_at. now rewrite lookup_insert_ne.
Qed.

Lemma load_cstr_allocated h b o s :
  load_cstr h (Ptr b o) = Some s -> b ∈ dom h.
Proof.
  intros H. apply load_cstr_inv in H as (_ & cells & _ & Hb & _).
  apply elem_of_dom. now exists cells.
Qed.

Lemma load_cstring_block h b s :
  NUL ∉ s -> load_cstr (<[b := cstring_block s]> h) (Ptr b 0) = Some s.
Proof.
  intros Hn. apply (load_cstr_intro _ b 0%nat s (cstring_block s) []).
  - exact Hn.
  - apply lookup_insert_eq.
  - lia.
  - unfold cstring_block. now rewrite drop_0, fmap_app.
Qed.

(** A store into one block leaves the other blocks as they were. *)
Lemma store_bytes_other_block h b o bytes h' b' o' :
  store_bytes h (Ptr b o) bytes = Some h' -> b' ≠ b ->
  load_cstr h' (Ptr b' o') = load_cstr h (Ptr b' o').
Proof.
  unfold store_bytes. destruct (h !! b) as [cells|]; [|discriminate].
  destruct (_ <=? _)%nat; [|discriminate].
  intros [= <-] Hne. now apply load_cstr_other_block.
Qed.

(** ** Allocation *)

Lemma size_of_string n :
  0 <= n < SIZE_MAX -> size_mul (size_add n 1) sizeof_char = n + 1.
Proof.
  intros Hn. unfold size_mul, size_add, size_wrap, sizeof_char, SIZE_MAX in *.
  rewrite Z.mul_1_r, Z.mod_mod, Z.mod_small; lia.
Qed.

Lemma malloc_ok n st :
  n <= mem_avail st ->
  malloc n st =
  Ret (Ptr (fresh (dom (mem st))) 0)
      (set_mem st (<[fresh (dom (mem st)) := replicate (Z.to_nat n) None]> (mem st))
               (mem_avail st - n)).
Proof. intros H. unfold malloc. destruct (Z.leb_spec n (mem_avail st)); [reflexivity | lia]. Qed.

Lemma malloc_fail n st :
  mem_avail st < n -> malloc n st = Ret NULL (set_errno st ENOMEM).
Proof. intros H. unfold malloc. destruct (Z.leb_spec n (mem_avail st)); [lia | reflexivity]. Qed.


Lemma malloc_never_exits n : never_exits (malloc n).
Proof. intros st status st'. unfold malloc. now destruct (_ <=? _). Qed.


Lemma strlen_run s st str :
  load_cstr (mem st) s = Some str -> strlen s st = Ret (Z.of_nat (length str)) st.
Proof. intros H. unfold strlen. now rewrite H. Qed.

Lemma strlen_inv s st n st' :
  strlen s st = Ret n st' ->
  st' = st ∧ ∃ str, load_cstr (mem st) s = Some str ∧ n = Z.of_nat (length str).
Proof.
  unfold strlen. destruct (load_cstr (mem st) s) as [str|]; [|discriminate].
  intros [= <- <-]. split; [reflexivity|]. now exists str.
Qed.

Lemma fresh_block_unallocated (h : gmap block (list cell)) : fresh (dom h) ∉ dom h.
Proof. apply is_fresh. Qed.

(** [strcpy] into a block just obtained for the string fills it exactly. *)
Lemma strcpy_into_fresh_block (h : gmap block (list cell)) b str :
  store_bytes (<[b := replicate (Z.to_nat (Z.of_nat (length str) + 1)) None]> h)
              (Ptr b 0) (str ++ [NUL])
  = Some (<[b := cstring_block str]> h).
Proof.
  unfold store_bytes. rewrite lookup_insert_eq.
  assert (Hlen : Z.to_nat (Z.of_nat (length str) + 1) = length (str ++ [NUL])).
  { rewrite length_app. cbn. lia. }
  rewrite Hlen, length_replicate, Nat.add_0_l, Nat.leb_refl.
  rewrite insert_insert_eq. f_equal. f_equal. unfold cstring_block.
  rewrite take_0, drop_ge by (rewrite length_replicate; lia).
  cbn. now rewrite app_nil_r.
Qed.

(** The successful path of [estrdup]. *)
Lemma estrdup_run s st str :
  load_cstr (mem st) s = Some str ->
  Z.of_nat (length str) < SIZE_MAX ->
  Z.of_nat (length str) + 1 <= mem_avail st ->
  estrdup s st =
  Ret (Ptr (fresh (dom (mem st))) 0)
      (set_mem st (<[fresh (dom (mem st)) := cstring_block str]> (mem st))
               (mem_avail st - (Z.of_nat (length str) + 1))).
Proof.
  intros Hs Hmax Havail. unfold estrdup.
  rewrite (bind_Ret _ _ _ _ _ (strlen_run s st str Hs)).
  rewrite size_of_string by lia.
  rewrite (bind_Ret _ _ _ _ _ (malloc_ok _ st Havail)).
  unfold bind at 1, ret at 1.
  set (b := fresh (dom (mem st))).
  assert (Hload : load_cstr (<[b := replicate (Z.to_nat (Z.of_nat (length str) + 1)) None]> (mem st)) s
                  = Some str).
  { destruct s as [|bs os]; [discriminate|].
    rewrite load_cstr_other_block; [exact Hs|].
    intros ->. apply (fresh_block_unallocated (mem st)).
    eapply load_cstr_allocated, Hs. }
  unfold bind, strcpy, ret. cbn [mem set_mem mem_avail].
  now rewrite Hload, strcpy_into_fresh_block.
Qed.

(** ** String duplication *)

(** C7.  For every string [s] for which the allocation succeeds, [estrdup s]
    returns a newly allocated buffer whose contents equal [s], and the two
    buffers are independent: a write through either pointer's block leaves
    the string read through the other unchanged.  (A string in memory is
    shorter than [SIZE_MAX].) *)
Theorem estrdup_independent_copy s st str :
  load_cstr (mem st) s = Some str ->
  Z.of_nat (length str) < SIZE_MAX ->
  Z.of_nat (length str) + 1 <= mem_avail st ->
  ∃ b st',
    estrdup s st = Ret (Ptr b 0) st'
    ∧ (b ∉ dom (mem st))
    ∧ load_cstr (mem st') (Ptr b 0) = Some str
    ∧ load_cstr (mem st') s = Some str
    ∧ (∀ o c h', store (mem st') (Ptr b o) c = Some h' -> load_cstr h' s = Some str)
    ∧ (∀ bs os o c h', s = Ptr bs os -> store (mem st') (Ptr bs o) c = Some h' ->
         load_cstr h' (Ptr b 0) = Some str).
Proof.
  intros Hs Hmax Havail.
  destruct s as [|bs os]; [discriminate|].
  pose proof (load_cstr_inv _ _ _ _ Hs) as [Hnul _].
  assert (Hne : bs ≠ fresh (dom (mem st))).
  { intros ->. apply (fresh_block_unallocated (mem st)). eapply load_cstr_allocated, Hs. }
  eexists _, _. split; [apply (estrdup_run _ _ str); assumption|].
  cbn [mem set_mem].
  assert (Hcopy : load_cstr (<[fresh (dom (mem st)) := cstring_block str]> (mem st))
                            (Ptr (fresh (dom (mem st))) 0) = Some str)
    by now apply load_cstring_block.
  assert (Hkeep : load_cstr (<[fresh (dom (mem st)) := cstring_block str]> (mem st))
                            (Ptr bs os) = Some str)
    by now rewrite load_cstr_other_block.
  repeat split.
  - apply fresh_block_unallocated.
  - exact Hcopy.
  - exact Hkeep.
  - intros o c h' Hst. unfold store in Hst.
    now rewrite (store_bytes_other_block _ _ _ _ _ bs os Hst).
  - intros bs' os' o c h' [= <- <-] Hst. unfold store in Hst.
    rewrite (store_bytes_other_block _ _ _ _ _ (fresh (dom (mem st))) 0%nat Hst); [exact Hcopy|].
    congruence.
Qed.

Lemma estrdup_independent_copy_witness :
  load_cstr (mem (st0 false 100 0)) (Ptr 1%positive 5) = Some (lit "c.src")
  ∧ Z.of_nat (length (lit "c.src")) < SIZE_MAX
  ∧ Z.of_nat (length (lit "c.src")) + 1 <= mem_avail (st0 false 100 0)
  ∧ ∃ b st',
      estrdup (Ptr 1%positive 5) (st0 false 100 0) = Ret (Ptr b 0) st'
      ∧ (b ∉ dom (mem (st0 false 100 0)))
      ∧ load_cstr (mem st') (Ptr b 0) = Some (lit "c.src")
      ∧ load_cstr (mem st') (Ptr 1%positive 5) = Some (lit "c.src")
      ∧ (∀ o c h', store (mem st') (Ptr b o) c = Some h' ->
           load_cstr h' (Ptr 1%positive 5) = Some (lit "c.src"))
      ∧ (∀ bs os o c h', Ptr 1%positive 5 = Ptr bs os ->
           store (mem st') (Ptr bs o) c = Some h' ->
           load_cstr h' (Ptr b 0) = Some (lit "c.src")).
Proof.
  assert (H1 : load_cstr (mem (st0 false 100 0)) (Ptr 1%positive 5) = Some (lit "c.src"))
    by reflexivity.
  assert (H2 : Z.of_nat (length (lit "c.src")) < SIZE_MAX) by reflexivity.
  assert (H3 : Z.of_nat (length (lit "c.src")) + 1 <= mem_avail (st0 false 100 0))
    by (vm_compute; discriminate).
  repeat (split; [assumption|]).
  exact (estrdup_independent_copy (Ptr 1%positive 5) (st0 false 100 0) (lit "c.src") H1 H2 H3).
Defined.

(** ** Program and source names *)

Lemma rindex_absent c (l : cstr) : c ∉ l -> rindex c l = None.
Proof.
  induction l as [|x l IH]; intros Hc; cbn; [reflexivity|].
  apply not_elem_of_cons in Hc as [Hx Hl]. rewrite (IH Hl).
  destruct (Ascii.eqb_spec x c); congruence.
Qed.

Lemma rindex_last c (d b : cstr) : c ∉ b -> rindex c (d ++ c :: b) = Some (length d).
Proof.
  intros Hb. induction d as [|x d IH]; cbn.
  - rewrite (rindex_absent c b Hb). now rewrite Ascii.eqb_refl.
  - now rewrite IH.
Qed.

Lemma rindex_None c (l : cstr) : rindex c l = None -> c ∉ l.
Proof.
  induction l as [|x l IH]; cbn; [intros _; apply not_elem_of_nil|].
  destruct (rindex c l) as [i|]; [discriminate|].
  destruct (Ascii.eqb_spec x c) as [|Hne]; [discriminate|].
  intros _. apply not_elem_of_cons. split; [congruence | now apply IH].
Qed.

Lemma rindex_Some c (l : cstr) i :
  rindex c l = Some i -> ∃ d b, l = d ++ c :: b ∧ (c ∉ b) ∧ length d = i.
Proof.
  revert i. induction l as [|x l IH]; intros i; cbn; [discriminate|].
  destruct (rindex c l) as [j|] eqn:E.
  - intros [= <-]. destruct (IH j eq_refl) as (d & b & -> & Hb & Hd).
    exists (x :: d), b. cbn. now rewrite Hd.
  - destruct (Ascii.eqb_spec x c) as [->|]; [|discriminate].
    intros [= <-]. exists [], l. repeat split. now apply rindex_None.
Qed.

(** Every path has a final component. *)
Lemma final_component_exists (path : cstr) : ∃ base, final_component path base.
Proof.
  destruct (rindex SLASH path) as [i|] eqn:E.
  - apply rindex_Some in E as (d & b & -> & Hb & _).
    exists b. split; [exact Hb|]. right. now exists d.
  - exists path. split; [now apply rindex_None | now left].
Qed.

Lemma strrchr_run b o c st str :
  load_cstr (mem st) (Ptr b o) = Some str -> c ≠ NUL ->
  strrchr (Ptr b o) c st =
  Ret (match rindex c str with Some i => Ptr b (o + i) | None => NULL end) st.
Proof.
  intros Hs Hc. unfold strrchr. rewrite Hs.
  destruct (Ascii.eqb_spec c NUL); [congruence|].
  now destruct (rindex c str).
Qed.

Lemma name_start_final_component s st path base :
  load_cstr (mem st) s = Some path ->
  final_component path base ->
  ∃ c, strrchr s SLASH st = Ret c st
       ∧ load_cstr (mem st) (name_start s c) = Some base.
Proof.
  intros Hs [Hbase Hpath]. destruct s as [|b o]; [discriminate|].
  rewrite (strrchr_run b o SLASH st path Hs) by discriminate.
  destruct Hpath as [->|[dir ->]].
  - rewrite (rindex_absent SLASH base Hbase). now exists NULL.
  - rewrite (rindex_last SLASH dir base Hbase).
    eexists. split; [reflexivity|]. cbn [name_start ptr_succ].
    rewrite <- Nat.add_succ_r.
    rewrite (load_cstr_advance _ _ _ _ (S (length dir)) Hs).
    + f_equal. replace (S (length dir)) with (length dir + 1)%nat by lia.
      rewrite <- drop_drop, drop_app_length. reflexivity.
    + rewrite length_app. cbn. lia.
Qed.

Lemma setsrcname_run s st path base :
  load_cstr (mem st) s = Some path ->
  final_component path base ->
  Z.of_nat (length base) < SIZE_MAX ->
  Z.of_nat (length base) + 1 <= mem_avail st ->
  setsrcname s st =
  Ret tt (set_sname
            (set_mem st (<[fresh (dom (mem st)) := cstring_block base]> (mem st))
                     (mem_avail st - (Z.of_nat (length base) + 1)))
            (Ptr (fresh (dom (mem st))) 0)).
Proof.
  intros Hs Hfc Hmax Havail.
  destruct (name_start_final_component s st path base Hs Hfc) as (c & Hc & Hload).
  unfold setsrcname. rewrite (bind_Ret _ _ _ _ _ Hc). fold (name_start s c).
  now rewrite (bind_Ret _ _ _ _ _ (estrdup_run _ st base Hload Hmax Havail)).
Qed.

Lemma setprogname_run s st path base :
  load_cstr (mem st) s = Some path ->
  final_component path base ->
  Z.of_nat (length base) < SIZE_MAX ->
  Z.of_nat (length base) + 1 <= mem_avail st ->
  setprogname s st =
  Ret tt (set_pname
            (set_mem st (<[fresh (dom (mem st)) := cstring_block base]> (mem st))
                     (mem_avail st - (Z.of_nat (length base) + 1)))
            (Ptr (fresh (dom (mem st))) 0)).
Proof.
  intros Hs Hfc Hmax Havail.
  destruct (name_start_final_component s st path base Hs Hfc) as (c & Hc & Hload).
  unfold setprogname. rewrite (bind_Ret _ _ _ _ _ Hc). fold (name_start s c).
  now rewrite (bind_Ret _ _ _ _ _ (estrdup_run _ st base Hload Hmax Havail)).
Qed.

Lemma final_component_no_nul h s path base :
  load_cstr h s = Some path -> final_component path base -> NUL ∉ base.
Proof.
  intros Hs [_ Hpath]. destruct s as [|b o]; [discriminate|].
  apply load_cstr_inv in Hs as [Hn _].
  destruct Hpath as [->|[dir ->]]; [exact Hn|].
  intros Hin. apply Hn. apply elem_of_app. right. now apply elem_of_cons; right.
Qed.

(** C6.  After [setsrcname p] (the duplication's allocation succeeding),
    [getsrcname ()] returns exactly the final component of [p]: what
    follows the last ['/'], or [p] itself when it holds no separator. *)
Theorem setsrcname_keeps_final_component s st path base :
  load_cstr (mem st) s = Some path ->
  final_component path base ->
  Z.of_nat (length base) < SIZE_MAX ->
  Z.of_nat (length base) + 1 <= mem_avail st ->
  ∃ st' q,
    setsrcname s st = Ret tt st'
    ∧ getsrcname st' = Ret q st'
    ∧ load_cstr (mem st') q = Some base.
Proof.
  intros Hs Hfc Hmax Havail.
  eexists _, _. split; [now apply (setsrcname_run s st path base)|].
  split; [reflexivity|]. cbn [mem sname set_sname set_mem].
  apply load_cstring_block. eapply final_component_no_nul; eassumption.
Qed.

Lemma setsrcname_keeps_final_component_witness :
  load_cstr (mem (st0 false 100 0)) (Ptr 1%positive 0) = Some (lit "/a/b/c.src")
  ∧ final_component (lit "/a/b/c.src") (lit "c.src")
  ∧ Z.of_nat (length (lit "c.src")) < SIZE_MAX
  ∧ Z.of_nat (length (lit "c.src")) + 1 <= mem_avail (st0 false 100 0)
  ∧ ∃ st' q,
      setsrcname (Ptr 1%positive 0) (st0 false 100 0) = Ret tt st'
      ∧ getsrcname st' = Ret q st'
      ∧ load_cstr (mem st') q = Some (lit "c.src").
Proof.
  assert (H1 : load_cstr (mem (st0 false 100 0)) (Ptr 1%positive 0) = Some (lit "/a/b/c.src"))
    by reflexivity.
  assert (H2 : final_component (lit "/a/b/c.src") (lit "c.src")).
  { split; [not_in_literal|]. right. now exists (lit "/a/b"). }
  assert (H3 : Z.of_nat (length (lit "c.src")) < SIZE_MAX) by reflexivity.
  assert (H4 : Z.of_nat (length (lit "c.src")) + 1 <= mem_avail (st0 false 100 0))
    by (vm_compute; discriminate).
  repeat (split; [assumption|]).
  exact (setsrcname_keeps_final_component (Ptr 1%positive 0) (st0 false 100 0)
           (lit "/a/b/c.src") (lit "c.src") H1 H2 H3 H4).
Defined.

(** The two runs the specification lists for [setSourceName]. *)
Example sample_source_names :
  (∃ st' q,
     (setsrcname (Ptr 1%positive 0) ;;; getsrcname) (st0 false 100 0) = Ret q st'
     ∧ load_cstr (mem st') q = Some (lit "c.src"))
  ∧ (∃ st' q,
       (setsrcname (Ptr 2%positive 0) ;;; getsrcname) (st_named false 0) = Ret q st'
       ∧ load_cstr (mem st') q = Some (lit "c.src")).
Proof. split; eexists _, _; split; vm_compute; reflexivity. Qed.

(** C10.  For every path whose last character is ['/'], [setsrcname] and
    [setprogname] (the one-byte allocation succeeding) install the empty
    string: the getter then returns a non-null pointer to a freshly
    allocated buffer holding [""]. *)
Theorem trailing_separator_installs_empty_name s st dir :
  load_cstr (mem st) s = Some (dir ++ [SLASH]) ->
  1 <= mem_avail st ->
  (∃ st' b,
      setsrcname s st = Ret tt st'
      ∧ getsrcname st' = Ret (Ptr b 0) st'
      ∧ (b ∉ dom (mem st))
      ∧ load_cstr (mem st') (Ptr b 0) = Some [])
  ∧ (∃ st' b,
      setprogname s st = Ret tt st'
      ∧ getprogname st' = Ret (Ptr b 0) st'
      ∧ (b ∉ dom (mem st))
      ∧ load_cstr (mem st') (Ptr b 0) = Some []).
Proof.
  intros Hs Havail.
  assert (Hfc : final_component (dir ++ [SLASH]) []).
  { split; [apply not_elem_of_nil|]. right. now exists dir. }
  split; eexists _, _.
  - split; [apply (setsrcname_run s st _ [] Hs Hfc); cbn; unfold SIZE_MAX; lia|].
    split; [reflexivity|]. split; [apply fresh_block_unallocated|].
    cbn [mem sname set_sname set_mem]. apply load_cstring_block, not_elem_of_nil.
  - split; [apply (setprogname_run s st _ [] Hs Hfc); cbn; unfold SIZE_MAX; lia|].
    split; [reflexivity|]. split; [apply fresh_block_unallocated|].
    cbn [mem pname set_pname set_mem]. apply load_cstring_block, not_elem_of_nil.
Qed.

Lemma trailing_separator_installs_empty_name_witness :
  load_cstr (mem st_dir) (Ptr 1%positive 0) = Some (lit "src" ++ [SLASH])
  ∧ 1 <= mem_avail st_dir
  ∧ (∃ st' b,
      setsrcname (Ptr 1%positive 0) st_dir = Ret tt st'
      ∧ getsrcname st' = Ret (Ptr b 0) st'
      ∧ (b ∉ dom (mem st_dir))
      ∧ load_cstr (mem st') (Ptr b 0) = Some [])
  ∧ (∃ st' b,
      setprogname (Ptr 1%positive 0) st_dir = Ret tt st'
      ∧ getprogname st' = Ret (Ptr b 0) st'
      ∧ (b ∉ dom (mem st_dir))
      ∧ load_cstr (mem st') (Ptr b 0) = Some []).
Proof.
  assert (H1 : load_cstr (mem st_dir) (Ptr 1%positive 0) = Some (lit "src" ++ [SLASH]))
    by reflexivity.
  assert (H2 : 1 <= mem_avail st_dir) by (vm_compute; discriminate).
  repeat (split; [assumption|]).
  exact (trailing_separator_installs_empty_name (Ptr 1%positive 0) st_dir (lit "src") H1 H2).
Defined.

(** *** When the duplication fails *)

Lemma never_returns_bind_l {A B} (m : M A) (k : A -> M B) :
  never_returns m -> never_returns (bind m k).
Proof.
  intros Hm st b st'. unfold bind.
  destruct (m st) as [a st1| status1 st1|] eqn:E; [|discriminate|discriminate].
  now apply Hm in E.
Qed.

Lemma sprintf_estrdup_failed h s str :
  load_cstr h s = Some str ->
  sprintf h estrdup_failed [AStr s] = Some (estrdup_message str).
Proof.
  intros Hs. unfold sprintf, estrdup_failed.
  cbv -[load_cstr_n take estrdup_message].
  rewrite (load_cstr_n_take h 20 s str Hs). reflexivity.
Qed.

(** The failing path of [estrdup]: the message, then exit status 2. *)
Lemma estrdup_fail_run s st str prog src :
  load_cstr (mem st) s = Some str ->
  Z.of_nat (length str) < SIZE_MAX ->
  mem_avail st < Z.of_nat (length str) + 1 ->
  load_name (mem st) (pname st) = Some prog ->
  load_name (mem st) (sname st) = Some src ->
  estrdup s st =
  Exit 2 (emits (after_isatty (set_errno st ENOMEM) 2)
            (diagnostic (is_tty st 2) prog src None (Some (error_tag (is_tty st 2)))
                        (estrdup_message str) true
                        (errno (after_isatty (set_errno st ENOMEM) 2)))).
Proof.
  intros Hs Hmax Havail Hp Hsrc. unfold estrdup.
  rewrite (bind_Ret _ _ _ _ _ (strlen_run s st str Hs)).
  rewrite size_of_string by lia.
  rewrite (bind_Ret _ _ _ _ _ (malloc_fail _ st Havail)).
  apply bind_Exit.
  rewrite (eprintf_run estrdup_failed [AStr s] (set_errno st ENOMEM) prog src (estrdup_message str));
    [reflexivity | exact Hp | exact Hsrc | now apply sprintf_estrdup_failed].
Qed.

(** C9.  [setsrcname] and [setprogname] duplicate the name with [estrdup]:
    when that duplication's allocation fails, the setter prints an
    [Error:] diagnostic and the process ends with exit status 2; the setter
    does not return and the installed names are not changed. *)
Theorem setters_exit_when_duplication_fails s st path base prog src :
  load_cstr (mem st) s = Some path ->
  final_component path base ->
  Z.of_nat (length base) < SIZE_MAX ->
  mem_avail st < Z.of_nat (length base) + 1 ->
  load_name (mem st) (pname st) = Some prog ->
  load_name (mem st) (sname st) = Some src ->
  ∃ st',
    setsrcname s st = Exit 2 st'
    ∧ setprogname s st = Exit 2 st'
    ∧ trace st' =
        trace st ++ diagnostic (is_tty st 2) prog src None (Some (error_tag (is_tty st 2)))
                               (estrdup_message base) true (errno st')
    ∧ sname st' = sname st
    ∧ pname st' = pname st.
Proof.
  intros Hs Hfc Hmax Havail Hp Hsrc.
  destruct (name_start_final_component s st path base Hs Hfc) as (c & Hc & Hload).
  pose proof (estrdup_fail_run _ st base prog src Hload Hmax Havail Hp Hsrc) as Hdup.
  eexists. split; [|split].
  - unfold setsrcname. rewrite (bind_Ret _ _ _ _ _ Hc). fold (name_start s c).
    apply bind_Exit. exact Hdup.
  - unfold setprogname. rewrite (bind_Ret _ _ _ _ _ Hc). fold (name_start s c).
    apply bind_Exit. exact Hdup.
  - cbn [trace emits errno sname pname].
    rewrite after_isatty_trace, after_isatty_sname, after_isatty_pname.
    repeat split.
Qed.

Lemma setters_exit_when_duplication_fails_witness :
  load_cstr (mem (st0 false 3 0)) (Ptr 1%positive 0) = Some (lit "/a/b/c.src")
  ∧ final_component (lit "/a/b/c.src") (lit "c.src")
  ∧ Z.of_nat (length (lit "c.src")) < SIZE_MAX
  ∧ mem_avail (st0 false 3 0) < Z.of_nat (length (lit "c.src")) + 1
  ∧ load_name (mem (st0 false 3 0)) (pname (st0 false 3 0)) = Some None
  ∧ load_name (mem (st0 false 3 0)) (sname (st0 false 3 0)) = Some None
  ∧ ∃ st',
      setsrcname (Ptr 1%positive 0) (st0 false 3 0) = Exit 2 st'
      ∧ setprogname (Ptr 1%positive 0) (st0 false 3 0) = Exit 2 st'
      ∧ trace st' =
          trace (st0 false 3 0)
          ++ diagnostic (is_tty (st0 false 3 0) 2) None None None
               (Some (error_tag (is_tty (st0 false 3 0) 2)))
               (estrdup_message (lit "c.src")) true (errno st')
      ∧ sname st' = sname (st0 false 3 0)
      ∧ pname st' = pname (st0 false 3 0).
Proof.
  assert (H1 : load_cstr (mem (st0 false 3 0)) (Ptr 1%positive 0) = Some (lit "/a/b/c.src"))
    by reflexivity.
  assert (H2 : final_component (lit "/a/b/c.src") (lit "c.src")).
  { split; [not_in_literal|]. right. now exists (lit "/a/b"). }
  assert (H3 : Z.of_nat (length (lit "c.src")) < SIZE_MAX) by reflexivity.
  assert (H4 : mem_avail (st0 false 3 0) < Z.of_nat (length (lit "c.src")) + 1) by reflexivity.
  assert (H5 : load_name (mem (st0 false 3 0)) (pname (st0 false 3 0)) = Some None)
    by reflexivity.
  assert (H6 : load_name (mem (st0 false 3 0)) (sname (st0 false 3 0)) = Some None)
    by reflexivity.
  repeat (split; [assumption|]).
  exact (setters_exit_when_duplication_fails (Ptr 1%positive 0) (st0 false 3 0)
           (lit "/a/b/c.src") (lit "c.src") None None H1 H2 H3 H4 H5 H6).
Defined.

(** ** Checked allocation: the Die and Warn variants *)

Lemma printable_weprintf_returns fmt args st :
  printable st fmt args -> ∃ st', weprintf fmt args st = Ret tt st'.
Proof.
  intros ([prog Hp] & [src Hs] & [body Hb]).
  eexists. now apply (weprintf_run fmt args st prog src body).
Qed.

Lemma printable_eprintf_exits fmt args st :
  printable st fmt args -> ∃ st', eprintf fmt args st = Exit 2 st'.
Proof.
  intros ([prog Hp] & [src Hs] & [body Hb]).
  eexists. now apply (eprintf_run fmt args st prog src body).
Qed.

(** A call that checks for a null result and reports it with [eprintf]. *)
Lemma die_on_null (alloc : M pointer) fmt args (k : pointer -> M pointer) st st1 :
  alloc st = Ret NULL st1 ->
  let call := p <- alloc ;;
              match p with NULL => eprintf fmt args | Ptr _ _ => ret tt end ;;; k p in
  (∀ a st', call st ≠ Ret a st')
  ∧ (printable st1 fmt args -> ∃ st', call st = Exit 2 st').
Proof.
  intros Ha call. subst call. rewrite (bind_Ret _ _ _ _ _ Ha). split.
  - apply never_returns_bind_l, never_returns_eprintf.
  - intros Hpr. destruct (printable_eprintf_exits _ _ _ Hpr) as [st' Hst'].
    exists st'. now apply bind_Exit.
Qed.

Lemma emalloc_dies n st st1 :
  malloc n st = Ret NULL st1 ->
  (∀ a st', emalloc n st ≠ Ret a st')
  ∧ (printable st1 (lit "malloc of %u bytes failed:") [AInt n] ->
     ∃ st', emalloc n st = Exit 2 st').
Proof. intros H. exact (die_on_null (malloc n) _ _ _ st st1 H). Qed.

Lemma erealloc_dies vp n st st1 :
  realloc vp n st = Ret NULL st1 ->
  (∀ a st', erealloc vp n st ≠ Ret a st')
  ∧ (printable st1 (lit "realloc of %u bytes failed:") [AInt n] ->
     ∃ st', erealloc vp n st = Exit 2 st').
Proof. intros H. exact (die_on_null (realloc vp n) _ _ _ st st1 H). Qed.

Lemma estrdup_dies s st str st1 :
  load_cstr (mem st) s = Some str ->
  malloc (size_mul (size_add (Z.of_nat (length str)) 1) sizeof_char) st = Ret NULL st1 ->
  (∀ a st', estrdup s st ≠ Ret a st')
  ∧ (printable st1 estrdup_failed [AStr s] -> ∃ st', estrdup s st = Exit 2 st').
Proof.
  intros Hs H. unfold estrdup. rewrite (bind_Ret _ _ _ _ _ (strlen_run s st str Hs)).
  exact (die_on_null (malloc _) _ _ _ st st1 H).
Qed.

Lemma wemalloc_warns n st st1 :
  malloc n st = Ret NULL st1 ->
  printable st1 (lit "malloc of %u bytes failed:") [AInt n] ->
  ∃ st', wemalloc n st = Ret NULL st'.
Proof.
  intros H Hpr. unfold wemalloc. rewrite (bind_Ret _ _ _ _ _ H).
  destruct (printable_weprintf_returns _ _ _ Hpr) as [st' Hst'].
  exists st'. now rewrite (bind_Ret _ _ _ _ _ Hst').
Qed.

Lemma werealloc_warns vp n st st1 :
  realloc vp n st = Ret NULL st1 ->
  printable st1 (lit "realloc of %u bytes failed:") [AInt n] ->
  ∃ st', werealloc vp n st = Ret NULL st'.
Proof.
  intros H Hpr. unfold werealloc. rewrite (bind_Ret _ _ _ _ _ H).
  destruct (printable_weprintf_returns _ _ _ Hpr) as [st' Hst'].
  exists st'. now rewrite (bind_Ret _ _ _ _ _ Hst').
Qed.

Lemma strcpy_null s st : strcpy NULL s st = Fault.
Proof. unfold strcpy. now destruct (load_cstr (mem st) s). Qed.

(** C1 (the case in which the code departs from it).  When the allocation
    inside [westrdup] fails, the routine prints its warning and then copies
    through the null pointer: the call is undefined, and gives no null
    result back to the caller. *)
Theorem westrdup_faults_when_allocation_fails s st str st1 :
  load_cstr (mem st) s = Some str ->
  malloc (size_mul (size_add (Z.of_nat (length str)) 1) sizeof_char) st = Ret NULL st1 ->
  westrdup s st = Fault.
Proof.
  intros Hs H. unfold westrdup.
  rewrite (bind_Ret _ _ _ _ _ (strlen_run s st str Hs)).
  rewrite (bind_Ret _ _ _ _ _ H).
  unfold bind at 1.
  destruct (weprintf estrdup_failed [AStr s] st1) as [[] st2|status st2|] eqn:E.
  - apply bind_Fault, strcpy_null.
  - now apply never_exits_weprintf in E.
  - reflexivity.
Qed.

Lemma westrdup_faults_when_allocation_fails_witness :
  load_cstr (mem (st0 false 3 0)) (Ptr 1%positive 0) = Some (lit "/a/b/c.src")
  ∧ malloc (size_mul (size_add (Z.of_nat (length (lit "/a/b/c.src"))) 1) sizeof_char)
           (st0 false 3 0)
    = Ret NULL (set_errno (st0 false 3 0) ENOMEM)
  ∧ westrdup (Ptr 1%positive 0) (st0 false 3 0) = Fault.
Proof.
  assert (H1 : load_cstr (mem (st0 false 3 0)) (Ptr 1%positive 0) = Some (lit "/a/b/c.src"))
    by reflexivity.
  assert (H2 : malloc (size_mul (size_add (Z.of_nat (length (lit "/a/b/c.src"))) 1) sizeof_char)
                      (st0 false 3 0)
               = Ret NULL (set_errno (st0 false 3 0) ENOMEM))
    by reflexivity.
  repeat (split; [assumption|]).
  exact (westrdup_faults_when_allocation_fails (Ptr 1%positive 0) (st0 false 3 0)
           (lit "/a/b/c.src") (set_errno (st0 false 3 0) ENOMEM) H1 H2).
Defined.

(** ** Diagnostics *)

Lemma stderr_text_app tr tr' : stderr_text (tr ++ tr') = stderr_text tr ++ stderr_text tr'.
Proof.
  induction tr as [|[|t] tr IH]; cbn; [reflexivity | exact IH |].
  now rewrite IH, app_assoc.
Qed.

(** The test in the code is the test for a final colon. *)
Lemma fmt_ends_in_colon_last (fmt : cstr) :
  NUL ∉ fmt -> fmt_ends_in_colon fmt = last_char_is_colon fmt.
Proof.
  intros Hn. unfold fmt_ends_in_colon, last_char_is_colon.
  destruct fmt as [|c fmt]; [reflexivity|].
  apply not_elem_of_cons in Hn as [Hc _].
  change (nth 0 (c :: fmt) NUL) with c.
  destruct (Ascii.eqb_spec c NUL) as [|_]; [congruence|].
  cbn [negb andb]. rewrite last_lookup, nth_lookup.
  replace (length (c :: fmt) - 1)%nat with (Init.Nat.pred (length (c :: fmt))) by (cbn; lia).
  destruct ((c :: fmt) !! Init.Nat.pred (length (c :: fmt))) as [x|] eqn:E; [reflexivity|].
  apply lookup_ge_None in E. cbn in E. lia.
Qed.

(** C5.  The shared routine emits, in this order: a flush of stdout; the
    program name and a colon, if set; a space, the source name and a colon,
    if set; line, colon, column, colon, if a position was supplied; the tag
    between two spaces, or one space without a tag; the formatted body;
    a space and the system error text, if the format ends in a colon; a
    newline.  (On a terminal the source name and the position carry their
    colour sequences.) *)
Theorem shared_routine_output_order pre pos fmt args st prog src body :
  load_name (mem st) (pname st) = Some prog ->
  load_name (mem st) (sname st) = Some src ->
  sprintf (mem st) fmt args = Some body ->
  NUL ∉ fmt ->
  ∃ st',
    _weprintf pre pos fmt args st = Ret tt st'
    ∧ trace st' =
        trace st
        ++ [EvFlushStdout]
        ++ opt_event (n ← prog; Some (n ++ lit ":"))
        ++ opt_event (n ← src;
             Some (lit " " ++ wrap (is_tty st 2) ASCII_BOLD_WHITE (n ++ lit ":")))
        ++ opt_event (p ← pos;
             Some (wrap (is_tty st 2) ASCII_BOLD_WHITE
                        (decimal (line p) ++ lit ":" ++ decimal (col p)) ++ lit ":"))
        ++ [EvStderr (match pre with
                      | Some tag => lit " " ++ tag ++ lit " "
                      | None => lit " "
                      end)]
        ++ [EvStderr body]
        ++ (if last_char_is_colon fmt then [EvStderr (lit " " ++ strerror (errno st'))] else [])
        ++ [EvStderr [NEWLINE]].
Proof.
  intros Hp Hs Hb Hn. eexists. split.
  - apply (_weprintf_run pre pos fmt args st prog src body Hp Hs Hb).
  - cbn [trace emits errno]. rewrite after_isatty_trace, (fmt_ends_in_colon_last fmt Hn).
    reflexivity.
Qed.

Lemma shared_routine_output_order_witness :
  let st := st_named true ENOENT in
  let fmt := lit "open %s failed:" in
  load_name (mem st) (pname st) = Some (Some (lit "cc"))
  ∧ load_name (mem st) (sname st) = Some (Some (lit "c.src"))
  ∧ sprintf (mem st) fmt [ALit (lit "f.txt")] = Some (lit "open f.txt failed:")
  ∧ (NUL ∉ fmt)
  ∧ ∃ st',
      _weprintf (Some (lit "Note:")) (Some (mkPos 3 14)) fmt [ALit (lit "f.txt")] st
      = Ret tt st'
      ∧ trace st' =
          trace st
          ++ [EvFlushStdout]
          ++ opt_event (n ← Some (lit "cc"); Some (n ++ lit ":"))
          ++ opt_event (n ← Some (lit "c.src");
               Some (lit " " ++ wrap (is_tty st 2) ASCII_BOLD_WHITE (n ++ lit ":")))
          ++ opt_event (p ← Some (mkPos 3 14);
               Some (wrap (is_tty st 2) ASCII_BOLD_WHITE
                          (decimal (line p) ++ lit ":" ++ decimal (col p)) ++ lit ":"))
          ++ [EvStderr (lit " " ++ lit "Note:" ++ lit " ")]
          ++ [EvStderr (lit "open f.txt failed:")]
          ++ (if last_char_is_colon fmt
              then [EvStderr (lit " " ++ strerror (errno st'))] else [])
          ++ [EvStderr [NEWLINE]].
Proof.
  intros st fmt.
  assert (H1 : load_name (mem st) (pname st) = Some (Some (lit "cc"))) by reflexivity.
  assert (H2 : load_name (mem st) (sname st) = Some (Some (lit "c.src"))) by reflexivity.
  assert (H3 : sprintf (mem st) fmt [ALit (lit "f.txt")] = Some (lit "open f.txt failed:"))
    by reflexivity.
  assert (H4 : NUL ∉ fmt) by not_in_literal.
  repeat (split; [assumption|]).
  exact (shared_routine_output_order (Some (lit "Note:")) (Some (mkPos 3 14)) fmt
           [ALit (lit "f.txt")] st (Some (lit "cc")) (Some (lit "c.src"))
           (lit "open f.txt failed:") H1 H2 H3 H4).
Defined.

(** The same run, event by event. *)
Example sample_trace_of_shared_routine :
  ∃ st',
    _weprintf (Some (lit "Note:")) (Some (mkPos 3 14)) (lit "open %s failed:")
              [ALit (lit "f.txt")] (st_named true ENOENT) = Ret tt st'
    ∧ trace st' =
        [ EvFlushStdout;
          EvStderr (lit "cc:");
          EvStderr (lit " " ++ ASCII_BOLD_WHITE ++ lit "c.src:" ++ ASCII_RESET);
          EvStderr (ASCII_BOLD_WHITE ++ lit "3:14" ++ ASCII_RESET ++ lit ":");
          EvStderr (lit " Note: ");
          EvStderr (lit "open f.txt failed:");
          EvStderr (lit " No such file or directory");
          EvStderr [NEWLINE] ].
Proof. eexists. split; vm_compute; reflexivity. Qed.

(** C3.  [eprintf] and [leprintf] end the process with exit status 2 and
    [teprintf] with exit status 3 whenever the diagnostic can be printed;
    no call of the three ever returns to its caller, and none ends the
    process with another status. *)
Theorem fatal_reports_exit fmt args st :
  ((∀ a st', eprintf fmt args st ≠ Ret a st')
   ∧ (∀ a st', leprintf fmt args st ≠ Ret a st')
   ∧ (∀ tag a st', teprintf tag fmt args st ≠ Ret a st'))
  ∧ ((∀ status st', eprintf fmt args st = Exit status st' -> status = 2)
     ∧ (∀ status st', leprintf fmt args st = Exit status st' -> status = 2)
     ∧ (∀ tag status st', teprintf tag fmt args st = Exit status st' -> status = 3))
  ∧ (printable st fmt args ->
     (∃ st', eprintf fmt args st = Exit 2 st')
     ∧ (∃ st', leprintf fmt args st = Exit 2 st')
     ∧ (∀ tag, ∃ st', teprintf tag fmt args st = Exit 3 st')).
Proof.
  split; [|split].
  - split; [apply never_returns_eprintf|].
    split; [apply never_returns_leprintf|].
    intros tag. apply never_returns_teprintf.
  - split; [intros status st'; apply eprintf_exit_status|].
    split; [intros status st'; apply leprintf_exit_status|].
    intros tag status st'. apply teprintf_exit_status.
  - intros ([prog Hp] & [src Hs] & [body Hb]).
    split; [|split; [|intros tag]]; eexists.
    + apply (eprintf_run fmt args st prog src body Hp Hs Hb).
    + apply (leprintf_run fmt args st prog src body Hp Hs Hb).
    + apply (teprintf_run fmt args st prog src body Hp Hs Hb).
Qed.

Lemma fatal_reports_exit_witness :
  printable (st_named false 0) (lit "bad token %d") [AInt 7]
  ∧ (∃ st', eprintf (lit "bad token %d") [AInt 7] (st_named false 0) = Exit 2 st')
  ∧ (∃ st', leprintf (lit "bad token %d") [AInt 7] (st_named false 0) = Exit 2 st')
  ∧ (∀ tag, ∃ st', teprintf tag (lit "bad token %d") [AInt 7] (st_named false 0) = Exit 3 st').
Proof.
  assert (Hpr : printable (st_named false 0) (lit "bad token %d") [AInt 7])
    by (repeat split; eexists; reflexivity).
  split; [exact Hpr|].
  exact (proj2 (proj2 (fatal_reports_exit (lit "bad token %d") [AInt 7] (st_named false 0))) Hpr).
Defined.

(** C4.  [weprintf] never ends the process; whenever the diagnostic can be
    printed it emits the [Warning:] line and returns to its caller. *)
Theorem warning_returns fmt args st :
  (∀ status st', weprintf fmt args st ≠ Exit status st')
  ∧ (printable st fmt args ->
     ∃ st' prog src body,
       weprintf fmt args st = Ret tt st'
       ∧ trace st' =
           trace st ++ diagnostic (is_tty st 2) prog src None
                                  (Some (warning_tag (is_tty st 2))) body
                                  (fmt_ends_in_colon fmt) (errno st')).
Proof.
  split.
  - intros status st'. apply never_exits_weprintf.
  - intros ([prog Hp] & [src Hs] & [body Hb]).
    eexists _, prog, src, body. split.
    + apply (weprintf_run fmt args st prog src body Hp Hs Hb).
    + cbn [trace emits errno]. now rewrite after_isatty_trace.
Qed.

Lemma warning_returns_witness :
  printable (st_named false 0) (lit "unused %s") [ALit (lit "x")]
  ∧ ∃ st' prog src body,
      weprintf (lit "unused %s") [ALit (lit "x")] (st_named false 0) = Ret tt st'
      ∧ trace st' =
          trace (st_named false 0)
          ++ diagnostic (is_tty (st_named false 0) 2) prog src None
                        (Some (warning_tag (is_tty (st_named false 0) 2))) body
                        (fmt_ends_in_colon (lit "unused %s")) (errno st').
Proof.
  assert (Hpr : printable (st_named false 0) (lit "unused %s") [ALit (lit "x")])
    by (repeat split; eexists; reflexivity).
  split; [exact Hpr|].
  exact (proj2 (warning_returns (lit "unused %s") [ALit (lit "x")] (st_named false 0)) Hpr).
Defined.

(** *** The system error suffix *)

(** The text of a diagnostic ends with the body, the suffix and a newline. *)
Lemma diagnostic_text_end istty prog src pos pre body colon e :
  ∃ before,
    stderr_text (diagnostic istty prog src pos pre body colon e)
    = before ++ body ++ (if colon then lit " " ++ strerror e else []) ++ [NEWLINE].
Proof.
  unfold diagnostic.
  exists (stderr_text
            (opt_event (n ← prog; Some (n ++ lit ":"))
             ++ opt_event (n ← src; Some (lit " " ++ wrap istty ASCII_BOLD_WHITE (n ++ lit ":")))
             ++ opt_event (p ← pos;
                  Some (wrap istty ASCII_BOLD_WHITE
                             (decimal (line p) ++ lit ":" ++ decimal (col p)) ++ lit ":"))
             ++ [EvStderr (match pre with
                           | Some tag => lit " " ++ tag ++ lit " "
                           | None => lit " "
                           end)])).
  rewrite !stderr_text_app. cbn [stderr_text app].
  rewrite <- !app_assoc. do 4 f_equal.
  destruct colon; cbn [stderr_text app]; now rewrite ?app_nil_r.
Qed.

(** What the shared routine appends after the body: with a final colon in
    the format, the text of [errno] as it stands after [isatty] was asked,
    which is the caller's [errno] only on a terminal. *)
Lemma _weprintf_suffix pre pos fmt args st prog src body :
  load_name (mem st) (pname st) = Some prog ->
  load_name (mem st) (sname st) = Some src ->
  sprintf (mem st) fmt args = Some body ->
  NUL ∉ fmt ->
  ∃ st' before,
    _weprintf pre pos fmt args st = Ret tt st'
    ∧ stderr_text (trace st') =
        stderr_text (trace st) ++ before ++ body
        ++ (if last_char_is_colon fmt
            then lit " " ++ strerror (if is_tty st 2 then errno st else ENOTTY)
            else [])
        ++ [NEWLINE].
Proof.
  intros Hp Hs Hb Hn.
  destruct (diagnostic_text_end (is_tty st 2) prog src pos pre body (fmt_ends_in_colon fmt)
              (errno (after_isatty st 2))) as [before Hend].
  eexists _, before. split.
  - apply (_weprintf_run pre pos fmt args st prog src body Hp Hs Hb).
  - cbn [trace emits]. rewrite after_isatty_trace, stderr_text_app, Hend.
    now rewrite after_isatty_errno, (fmt_ends_in_colon_last fmt Hn).
Qed.

(** C2 (the case in which the code departs from it).  With the diagnostic
    stream not a terminal, [eprintf] called with [errno = ENOMEM] and a
    format ending in a colon prints the text of [ENOTTY], left in [errno]
    by [isatty], and not the text of the error code active at the call;
    [emalloc] reports its failed allocation that way. *)
Theorem eprintf_suffix_not_errno_at_call :
  let st := st0 false 0 ENOMEM in
  (∃ st',
     eprintf (lit "malloc of %u bytes failed:") [AInt 4096] st = Exit 2 st'
     ∧ stderr_text (trace st')
       = lit " Error: malloc of 4096 bytes failed: Inappropriate ioctl for device" ++ [NEWLINE]
     ∧ ¬ (∃ before,
            stderr_text (trace st') = before ++ lit " " ++ strerror (errno st) ++ [NEWLINE]))
  ∧ (∃ st',
       emalloc 4096 (st0 false 0 0) = Exit 2 st'
       ∧ stderr_text (trace st')
         = lit " Error: malloc of 4096 bytes failed: Inappropriate ioctl for device"
           ++ [NEWLINE]).
Proof.
  split.
  - eexists. split; [vm_compute; reflexivity|]. split; [vm_compute; reflexivity|].
    intros [before H]. apply (f_equal reverse) in H.
    rewrite !reverse_app in H. vm_compute in H. discriminate H.
  - eexists. split; vm_compute; reflexivity.
Qed.

(** *** Colours *)

Lemma is_prefix_app p l : is_prefix p (p ++ l) = true.
Proof. induction p as [|x p IH]; cbn; [reflexivity|]. now rewrite Ascii.eqb_refl, IH. Qed.

Lemma has_infix_app needle before after : has_infix needle (before ++ needle ++ after) = true.
Proof.
  induction before as [|x before IH].
  - cbn [app]. destruct (needle ++ after) eqn:E; cbn; rewrite <- ?E, is_prefix_app;
      [destruct needle; [reflexivity | discriminate] | reflexivity].
  - cbn [app has_infix]. rewrite IH. apply orb_true_r.
Qed.

Lemma wrapped_in_infix esc part out :
  wrapped_in esc part out -> has_infix (part ++ ASCII_RESET) out = true.
Proof.
  intros (before & after & ->).
  replace (before ++ esc ++ part ++ ASCII_RESET ++ after)
    with ((before ++ esc) ++ (part ++ ASCII_RESET) ++ after)
    by now rewrite <- !app_assoc.
  apply has_infix_app.
Qed.

Lemma uint_escape_free d : escape_free (lit (NilEmpty.string_of_uint d)).
Proof.
  unfold escape_free.
  induction d; cbn; [apply not_elem_of_nil | ..];
    (apply not_elem_of_cons; split; [discriminate | assumption]).
Qed.

Lemma decimal_escape_free z : escape_free (decimal z).
Proof.
  unfold decimal. destruct (Z.to_int z) as [d|d]; cbn.
  - destruct d; try apply uint_escape_free. not_in_literal.
  - apply not_elem_of_cons. split; [discriminate|].
    destruct d; try apply uint_escape_free. not_in_literal.
Qed.

Lemma strerror_escape_free e : escape_free (strerror e).
Proof.
  unfold strerror, escape_free.
  repeat (destruct (_ =? _); [not_in_literal|]).
  apply not_elem_of_app. split; [not_in_literal | apply decimal_escape_free].
Qed.

(** Off a terminal the routine adds no escape character of its own. *)
Lemma diagnostic_plain prog src pos pre body colon e :
  option_escape_free prog -> option_escape_free src -> option_escape_free pre ->
  escape_free body ->
  escape_free (stderr_text (diagnostic false prog src pos pre body colon e)).
Proof.
  intros Hprog Hsrc Hpre Hbody. unfold diagnostic, wrap, colour.
  pose proof (strerror_escape_free e) as He.
  destruct prog as [n|]; [specialize (Hprog n eq_refl)|];
  (destruct src as [m|]; [specialize (Hsrc m eq_refl)|]);
  (destruct pre as [t|]; [specialize (Hpre t eq_refl)|]);
  destruct pos as [[l c]|], colon; cbn; unfold escape_free in *;
    repeat first [ assumption
                 | apply decimal_escape_free
                 | apply not_elem_of_nil
                 | apply not_elem_of_app; split
                 | apply not_elem_of_cons; split; [discriminate|] ].
Qed.

Lemma added_emits st st' evs : trace st' = trace st ++ evs -> added st st' = evs.
Proof. intros H. unfold added. now rewrite H, drop_app_length. Qed.

Lemma added_after_isatty st evs : added st (emits (after_isatty st 2) evs) = evs.
Proof. apply added_emits. cbn [trace emits]. now rewrite after_isatty_trace. Qed.

(** C8, as the code has it.  Off a terminal the four routines add no escape
    sequence: the output is free of escape characters whenever the names,
    the tag and the message are.  On a terminal the source name and the
    position are wrapped in bold white and reset, and the fixed tags
    [Error:] and [Warning:] in bold red and bold yellow and reset; the tag
    handed to [teprintf] is printed as the caller gave it. *)
Theorem colour_policy fmt args st prog src body :
  load_name (mem st) (pname st) = Some prog ->
  load_name (mem st) (sname st) = Some src ->
  sprintf (mem st) fmt args = Some body ->
  (is_tty st 2 = false ->
   option_escape_free prog -> option_escape_free src -> escape_free body ->
   (∃ st', eprintf fmt args st = Exit 2 st' ∧ escape_free (output_since st st'))
   ∧ (∃ st', leprintf fmt args st = Exit 2 st' ∧ escape_free (output_since st st'))
   ∧ (∃ st', weprintf fmt args st = Ret tt st' ∧ escape_free (output_since st st'))
   ∧ (∀ tag, option_escape_free tag ->
        ∃ st', teprintf tag fmt args st = Exit 3 st' ∧ escape_free (output_since st st')))
  ∧ (is_tty st 2 = true ->
     (∃ st', eprintf fmt args st = Exit 2 st'
        ∧ added st st' =
            diagnostic true prog src None
              (Some (ASCII_BOLD_RED ++ lit "Error:" ++ ASCII_RESET))
              body (fmt_ends_in_colon fmt) (errno st))
     ∧ (∃ st', leprintf fmt args st = Exit 2 st'
          ∧ added st st' =
              diagnostic true prog src (Some (position st))
                (Some (ASCII_BOLD_RED ++ lit "Error:" ++ ASCII_RESET))
                body (fmt_ends_in_colon fmt) (errno st))
     ∧ (∃ st', weprintf fmt args st = Ret tt st'
          ∧ added st st' =
              diagnostic true prog src None
                (Some (ASCII_BOLD_YELLOW ++ lit "Warning:" ++ ASCII_RESET))
                body (fmt_ends_in_colon fmt) (errno st))
     ∧ (∀ tag, ∃ st', teprintf tag fmt args st = Exit 3 st'
          ∧ added st st' =
              diagnostic true prog src (Some (position st)) tag
                body (fmt_ends_in_colon fmt) (errno st))).
Proof.
  intros Hp Hs Hb.
  pose proof (eprintf_run fmt args st prog src body Hp Hs Hb) as He.
  pose proof (leprintf_run fmt args st prog src body Hp Hs Hb) as Hl.
  pose proof (weprintf_run fmt args st prog src body Hp Hs Hb) as Hw.
  pose proof (teprintf_run fmt args st prog src body Hp Hs Hb) as Ht.
  assert (Hfixed : ∀ esc name, option_escape_free (Some (wrap false esc name)) ↔ escape_free name).
  { intros esc name. unfold option_escape_free, wrap, colour. cbn [app].
    rewrite app_nil_r. split; [intros H; now apply H | now intros H t [= <-]]. }
  split; intros Htty; rewrite Htty in *.
  - intros Hfp Hfs Hfb.
    assert (Herr : option_escape_free (Some (error_tag false)))
      by (apply Hfixed; not_in_literal).
    assert (Hwarn : option_escape_free (Some (warning_tag false)))
      by (apply Hfixed; not_in_literal).
    split; [|split; [|split; [|intros tag Hft]]]; eexists; (split; [eassumption || apply Ht|]);
      unfold output_since; rewrite added_after_isatty; now apply diagnostic_plain.
  - assert (Herrno : errno (after_isatty st 2) = errno st)
      by now rewrite after_isatty_errno, Htty.
    rewrite Herrno in *.
    split; [|split; [|split; [|intros tag]]]; eexists; (split; [eassumption || apply Ht|]);
      now rewrite added_after_isatty.
Qed.

Lemma colour_policy_witness :
  let fmt := lit "open %s failed:" in
  let args := [ALit (lit "f.txt")] in
  let body := lit "open f.txt failed:" in
  (* off a terminal *)
  (let st := st_named false ENOENT in
   (∃ st', eprintf fmt args st = Exit 2 st' ∧ escape_free (output_since st st'))
   ∧ (∃ st', leprintf fmt args st = Exit 2 st' ∧ escape_free (output_since st st'))
   ∧ (∃ st', weprintf fmt args st = Ret tt st' ∧ escape_free (output_since st st'))
   ∧ (∀ tag, option_escape_free tag ->
        ∃ st', teprintf tag fmt args st = Exit 3 st' ∧ escape_free (output_since st st')))
  (* on a terminal *)
  ∧ (let st := st_named true ENOENT in
     (∃ st', eprintf fmt args st = Exit 2 st'
        ∧ added st st' =
            diagnostic true (Some (lit "cc")) (Some (lit "c.src")) None
              (Some (ASCII_BOLD_RED ++ lit "Error:" ++ ASCII_RESET))
              body (fmt_ends_in_colon fmt) (errno st))
     ∧ (∃ st', leprintf fmt args st = Exit 2 st'
          ∧ added st st' =
              diagnostic true (Some (lit "cc")) (Some (lit "c.src")) (Some (position st))
                (Some (ASCII_BOLD_RED ++ lit "Error:" ++ ASCII_RESET))
                body (fmt_ends_in_colon fmt) (errno st))
     ∧ (∃ st', weprintf fmt args st = Ret tt st'
          ∧ added st st' =
              diagnostic true (Some (lit "cc")) (Some (lit "c.src")) None
                (Some (ASCII_BOLD_YELLOW ++ lit "Warning:" ++ ASCII_RESET))
                body (fmt_ends_in_colon fmt) (errno st))
     ∧ (∀ tag, ∃ st', teprintf tag fmt args st = Exit 3 st'
          ∧ added st st' =
              diagnostic true (Some (lit "cc")) (Some (lit "c.src")) (Some (position st)) tag
                body (fmt_ends_in_colon fmt) (errno st))).
Proof.
  intros fmt args body. split; intros st.
  - refine (proj1 (colour_policy fmt args st (Some (lit "cc")) (Some (lit "c.src")) body
                     eq_refl eq_refl eq_refl) eq_refl _ _ _).
    + intros t [= <-]. not_in_literal.
    + intros t [= <-]. not_in_literal.
    + not_in_literal.
  - exact (proj2 (colour_policy fmt args st (Some (lit "cc")) (Some (lit "c.src")) body
                    eq_refl eq_refl eq_refl) eq_refl).
Defined.

(** The text of three diagnostics: on a terminal, the tag of [teprintf]
    stays plain next to the coloured name and position. *)
Example sample_coloured_diagnostics :
  run_text (leprintf (lit "bad token") [] (st_named false 0))
  = Some (lit "cc: c.src:3:14: Error: bad token" ++ [NEWLINE])
  ∧ run_text (leprintf (lit "bad token") [] (st_named true 0))
    = Some (lit "cc: " ++ ASCII_BOLD_WHITE ++ lit "c.src:" ++ ASCII_RESET
            ++ ASCII_BOLD_WHITE ++ lit "3:14" ++ ASCII_RESET ++ lit ": "
            ++ ASCII_BOLD_RED ++ lit "Error:" ++ ASCII_RESET
            ++ lit " bad token" ++ [NEWLINE])
  ∧ run_text (teprintf (Some (lit "Note:")) (lit "bad token") [] (st_named true 0))
    = Some (lit "cc: " ++ ASCII_BOLD_WHITE ++ lit "c.src:" ++ ASCII_RESET
            ++ ASCII_BOLD_WHITE ++ lit "3:14" ++ ASCII_RESET ++ lit ": "
            ++ lit "Note: bad token" ++ [NEWLINE]).
Proof. repeat split; vm_compute; reflexivity. Qed.

(** C8 as stated fails twice: on a terminal the tag of [teprintf] is not
    followed by a reset sequence, so no escape pair wraps it; and off a
    terminal a tag that carries escape sequences is printed with them. *)
Lemma teprintf_tag_not_wrapped :
  (∃ st',
     teprintf (Some (lit "Note:")) (lit "x") [] (st_named true 0) = Exit 3 st'
     ∧ ¬ (∃ esc, wrapped_in esc (lit "Note:") (stderr_text (trace st'))))
  ∧ (∃ st',
       teprintf (Some (ASCII_BOLD_RED ++ lit "Note:" ++ ASCII_RESET)) (lit "x") []
                (st_named false 0) = Exit 3 st'
       ∧ ¬ escape_free (stderr_text (trace st'))).
Proof.
  split; eexists; (split; [vm_compute; reflexivity|]).
  - intros [esc Hw]. apply wrapped_in_infix in Hw. vm_compute in Hw. discriminate Hw.
  - intros Hfree. apply Hfree. apply list_elem_of_In. vm_compute.
    repeat first [left; reflexivity | right].
Qed.

(** * Further properties of error.c *)

(** ** Checked allocation on both paths *)

Lemma sprintf_malloc_failed h n :
  0 <= n < 4294967296 ->
  sprintf h (lit "malloc of %u bytes failed:") [AInt n]
  = Some (lit "malloc of " ++ decimal n ++ lit " bytes failed:").
Proof.
  intros Hn. unfold sprintf. cbn -[decimal Z.modulo].
  rewrite Z.mod_small by lia. reflexivity.
Qed.


(** X1.  When the request fits, [emalloc] and [wemalloc] return the same
    non-null pointer to a block that was not allocated before and holds
    exactly [n] bytes; the other blocks are as before, the allocator's
    budget drops by [n], and nothing is printed. *)
Theorem checked_malloc_success n st :
  0 <= n <= mem_avail st ->
  ∃ b st',
    emalloc n st = Ret (Ptr b 0) st'
    ∧ wemalloc n st = Ret (Ptr b 0) st'
    ∧ (b ∉ dom (mem st))
    ∧ (∃ cells, mem st' !! b = Some cells ∧ Z.of_nat (length cells) = n)
    ∧ (∀ b', b' ≠ b -> mem st' !! b' = mem st !! b')
    ∧ mem_avail st' = mem_avail st - n
    ∧ trace st' = trace st
    ∧ errno st' = errno st.
Proof.
  intros [Hn Havail]. eexists _, _.
  split; [unfold emalloc; now rewrite (bind_Ret _ _ _ _ _ (malloc_ok n st Havail))|].
  split; [unfold wemalloc; now rewrite (bind_Ret _ _ _ _ _ (malloc_ok n st Havail))|].
  cbn [mem set_mem mem_avail trace errno].
  split; [apply fresh_block_unallocated|].
  split.
  - eexists. split; [apply lookup_insert_eq|]. rewrite length_replicate. lia.
  - split; [|repeat split]. intros b' Hne. now apply lookup_insert_ne.
Qed.

Lemma checked_malloc_success_witness :
  0 <= 16 <= mem_avail (st0 false 100 0)
  ∧ ∃ b st',
      emalloc 16 (st0 false 100 0) = Ret (Ptr b 0) st'
      ∧ wemalloc 16 (st0 false 100 0) = Ret (Ptr b 0) st'
      ∧ (b ∉ dom (mem (st0 false 100 0)))
      ∧ (∃ cells, mem st' !! b = Some cells ∧ Z.of_nat (length cells) = 16)
      ∧ (∀ b', b' ≠ b -> mem st' !! b' = mem (st0 false 100 0) !! b')
      ∧ mem_avail st' = mem_avail (st0 false 100 0) - 16
      ∧ trace st' = trace (st0 false 100 0)
      ∧ errno st' = errno (st0 false 100 0).
Proof.
  assert (H : 0 <= 16 <= mem_avail (st0 false 100 0)) by (cbn; lia).
  split; [exact H|]. exact (checked_malloc_success 16 (st0 false 100 0) H).
Defined.

(** X2.  When [malloc] cannot meet the request, [emalloc] ends the process
    with exit status 2 and [wemalloc] returns the null pointer; each first
    prints one diagnostic, [Error:] or [Warning:], whose message is
    [malloc of n bytes failed:] followed by the text of [errno] as the
    routine finds it, and neither changes the memory. *)
Theorem malloc_failure_reports n st prog src :
  0 <= n < 4294967296 ->
  mem_avail st < n ->
  load_name (mem st) (pname st) = Some prog ->
  load_name (mem st) (sname st) = Some src ->
  let body := lit "malloc of " ++ decimal n ++ lit " bytes failed:" in
  (∃ st',
     emalloc n st = Exit 2 st'
     ∧ mem st' = mem st
     ∧ added st st' =
         diagnostic (is_tty st 2) prog src None (Some (error_tag (is_tty st 2))) body true
                    (errno st'))
  ∧ (∃ st',
       wemalloc n st = Ret NULL st'
       ∧ mem st' = mem st
       ∧ mem_avail st' = mem_avail st
       ∧ added st st' =
           diagnostic (is_tty st 2) prog src None (Some (warning_tag (is_tty st 2))) body true
                      (errno st')).
Proof.
  intros Hn Havail Hp Hs body. subst body.
  pose proof (malloc_fail n st Havail) as Hm.
  pose proof (sprintf_malloc_failed (mem st) n Hn) as Hb.
  split; eexists.
  - split; [|split].
    + unfold emalloc. rewrite (bind_Ret _ _ _ _ _ Hm). apply bind_Exit.
      apply (eprintf_run _ _ (set_errno st ENOMEM) prog src _ Hp Hs Hb).
    + cbn [mem emits]. apply (after_isatty_mem (set_errno st ENOMEM)).
    + apply added_emits. cbn [trace emits errno]. now rewrite after_isatty_trace.
  - split; [|split; [|split]].
    + unfold wemalloc. rewrite (bind_Ret _ _ _ _ _ Hm).
      now rewrite (bind_Ret _ _ _ _ _
                     (weprintf_run _ _ (set_errno st ENOMEM) prog src _ Hp Hs Hb)).
    + cbn [mem emits]. apply (after_isatty_mem (set_errno st ENOMEM)).
    + cbn [mem_avail emits]. unfold after_isatty.
      now destruct (is_tty (set_errno st ENOMEM) 2).
    + apply added_emits. cbn [trace emits errno]. now rewrite after_isatty_trace.
Qed.

Lemma malloc_failure_reports_witness :
  let st := st_named true 0 in
  0 <= 4096 < 4294967296
  ∧ mem_avail st < 4096
  ∧ load_name (mem st) (pname st) = Some (Some (lit "cc"))
  ∧ load_name (mem st) (sname st) = Some (Some (lit "c.src"))
  ∧ (∃ st',
       emalloc 4096 st = Exit 2 st'
       ∧ mem st' = mem st
       ∧ added st st' =
           diagnostic (is_tty st 2) (Some (lit "cc")) (Some (lit "c.src")) None
             (Some (error_tag (is_tty st 2)))
             (lit "malloc of " ++ decimal 4096 ++ lit " bytes failed:") true
             (errno st'))
  ∧ (∃ st',
       wemalloc 4096 st = Ret NULL st'
       ∧ mem st' = mem st
       ∧ mem_avail st' = mem_avail st
       ∧ added st st' =
           diagnostic (is_tty st 2) (Some (lit "cc")) (Some (lit "c.src")) None
             (Some (warning_tag (is_tty st 2)))
             (lit "malloc of " ++ decimal 4096 ++ lit " bytes failed:") true
             (errno st')).
Proof.
  intros st.
  assert (H1 : 0 <= 4096 < 4294967296) by lia.
  assert (H2 : mem_avail st < 4096) by reflexivity.
  assert (H3 : load_name (mem st) (pname st) = Some (Some (lit "cc"))) by reflexivity.
  assert (H4 : load_name (mem st) (sname st) = Some (Some (lit "c.src"))) by reflexivity.
  repeat (split; [assumption|]).
  exact (malloc_failure_reports 4096 st (Some (lit "cc")) (Some (lit "c.src")) H1 H2 H3 H4).
Defined.



(** ** Resizing a block that holds a string *)

Lemma scan_cstr_take n (s : cstr) rest :
  (NUL ∉ s) -> (length s < n)%nat ->
  scan_cstr (take n ((Some <$> s) ++ Some NUL :: rest)) = Some s.
Proof.
  intros Hn Hlen.
  replace ((Some <$> s) ++ Some NUL :: rest)
    with (((Some <$> s) ++ [Some NUL]) ++ rest) by now rewrite <- app_assoc.
  replace n with (length ((Some <$> s) ++ [Some NUL]) + (n - S (length s)))%nat
    by (rewrite length_app, length_fmap; cbn; lia).
  rewrite take_app_add, <- app_assoc. now apply scan_cstr_string.
Qed.

(** X4.  When the resize succeeds with room for the string and its
    terminator, [erealloc] and [werealloc] return a pointer to a new block
    that starts with the same string; the old block is released, so the
    pointer handed in dangles; nothing is printed. *)
Theorem checked_realloc_moves_string b n st str cells :
  load_cstr (mem st) (Ptr b 0) = Some str ->
  mem st !! b = Some cells ->
  Z.of_nat (length str) < n ->
  n <= mem_avail st + Z.of_nat (length cells) ->
  ∃ b' st',
    erealloc (Ptr b 0) n st = Ret (Ptr b' 0) st'
    ∧ werealloc (Ptr b 0) n st = Ret (Ptr b' 0) st'
    ∧ (b' ∉ dom (mem st))
    ∧ load_cstr (mem st') (Ptr b' 0) = Some str
    ∧ load_cstr (mem st') (Ptr b 0) = None
    ∧ mem_avail st' = mem_avail st + Z.of_nat (length cells) - n
    ∧ trace st' = trace st.
Proof.
  intros Hs Hb Hlen Hfit.
  pose proof (load_cstr_inv _ _ _ _ Hs) as (Hnul & cells0 & rest & Hb0 & _ & Hd).
  rewrite Hb in Hb0. injection Hb0 as <-. rewrite drop_0 in Hd.
  assert (Hne : b ≠ fresh (dom (mem st))).
  { intros Heq. apply (fresh_block_unallocated (mem st)). rewrite <- Heq.
    apply elem_of_dom. now exists cells. }
  assert (Hr : realloc (Ptr b 0) n st =
               Ret (Ptr (fresh (dom (mem st))) 0)
                   (set_mem st
                      (<[fresh (dom (mem st)) :=
                           take (Z.to_nat n) (cells ++ replicate (Z.to_nat n) None)]>
                         (delete b (mem st)))
                      (mem_avail st + Z.of_nat (length cells) - n))).
  { cbn [realloc]. rewrite Hb.
    destruct (Z.leb_spec n (mem_avail st + Z.of_nat (length cells))); [reflexivity | lia]. }
  eexists _, _.
  split; [unfold erealloc; now rewrite (bind_Ret _ _ _ _ _ Hr)|].
  split; [unfold werealloc; now rewrite (bind_Ret _ _ _ _ _ Hr)|].
  cbn [mem set_mem mem_avail trace].
  split; [apply fresh_block_unallocated|].
  split; [|split; [|split; reflexivity]].
  - unfold load_cstr, cells_at. rewrite lookup_insert_eq. cbn [Nat.leb]. rewrite drop_0.
    rewrite Hd, <- app_assoc. cbn [app]. apply scan_cstr_take; [exact Hnul | lia].
  - unfold load_cstr, cells_at.
    rewrite lookup_insert_ne by congruence. now rewrite lookup_delete_eq.
Qed.

Lemma checked_realloc_moves_string_witness :
  let st := st_named false 0 in
  load_cstr (mem st) (Ptr 2%positive 0) = Some (lit "c.src")
  ∧ mem st !! 2%positive = Some (cstring_block (lit "c.src"))
  ∧ Z.of_nat (length (lit "c.src")) < 32
  ∧ 32 <= mem_avail st + Z.of_nat (length (cstring_block (lit "c.src")))
  ∧ ∃ b' st',
      erealloc (Ptr 2%positive 0) 32 st = Ret (Ptr b' 0) st'
      ∧ werealloc (Ptr 2%positive 0) 32 st = Ret (Ptr b' 0) st'
      ∧ (b' ∉ dom (mem st))
      ∧ load_cstr (mem st') (Ptr b' 0) = Some (lit "c.src")
      ∧ load_cstr (mem st') (Ptr 2%positive 0) = None
      ∧ mem_avail st' = mem_avail st + Z.of_nat (length (cstring_block (lit "c.src"))) - 32
      ∧ trace st' = trace st.
Proof.
  intros st.
  assert (H1 : load_cstr (mem st) (Ptr 2%positive 0) = Some (lit "c.src")) by reflexivity.
  assert (H2 : mem st !! 2%positive = Some (cstring_block (lit "c.src"))) by reflexivity.
  assert (H3 : Z.of_nat (length (lit "c.src")) < 32) by reflexivity.
  assert (H4 : 32 <= mem_avail st + Z.of_nat (length (cstring_block (lit "c.src"))))
    by (vm_compute; discriminate).
  repeat (split; [assumption|]).
  exact (checked_realloc_moves_string 2%positive 32 st (lit "c.src")
           (cstring_block (lit "c.src")) H1 H2 H3 H4).
Defined.

(** ** String duplication on both paths *)

(** X5.  When the allocation succeeds, [westrdup] does exactly what
    [estrdup] does: both return the same pointer to a new block of exactly
    [strlen s + 1] bytes that holds the string; the allocator's budget
    drops by that amount, and nothing is printed. *)
Theorem strdup_variants_agree_on_success s st str :
  load_cstr (mem st) s = Some str ->
  Z.of_nat (length str) < SIZE_MAX ->
  Z.of_nat (length str) + 1 <= mem_avail st ->
  ∃ b st',
    westrdup s st = Ret (Ptr b 0) st'
    ∧ estrdup s st = Ret (Ptr b 0) st'
    ∧ mem st' !! b = Some (cstring_block str)
    ∧ Z.of_nat (length (cstring_block str)) = Z.of_nat (length str) + 1
    ∧ load_cstr (mem st') (Ptr b 0) = Some str
    ∧ mem_avail st' = mem_avail st - (Z.of_nat (length str) + 1)
    ∧ trace st' = trace st
    ∧ errno st' = errno st.
Proof.
  intros Hs Hmax Havail.
  pose proof (estrdup_run s st str Hs Hmax Havail) as He.
  assert (Hw : westrdup s st = estrdup s st).
  { unfold westrdup, estrdup.
    rewrite !(bind_Ret _ _ _ _ _ (strlen_run s st str Hs)).
    rewrite size_of_string by lia.
    now rewrite !(bind_Ret _ _ _ _ _ (malloc_ok _ st Havail)). }
  eexists _, _. split; [rewrite Hw; exact He|]. split; [exact He|].
  cbn [mem set_mem mem_avail trace errno].
  split; [apply lookup_insert_eq|].
  split; [unfold cstring_block; rewrite length_fmap, length_app; cbn; lia|].
  split; [|repeat split].
  apply load_cstring_block. destruct s as [|bs os]; [discriminate|].
  now apply load_cstr_inv in Hs as [Hn _].
Qed.

Lemma strdup_variants_agree_on_success_witness :
  let st := st0 false 100 0 in
  load_cstr (mem st) (Ptr 1%positive 5) = Some (lit "c.src")
  ∧ Z.of_nat (length (lit "c.src")) < SIZE_MAX
  ∧ Z.of_nat (length (lit "c.src")) + 1 <= mem_avail st
  ∧ ∃ b st',
      westrdup (Ptr 1%positive 5) st = Ret (Ptr b 0) st'
      ∧ estrdup (Ptr 1%positive 5) st = Ret (Ptr b 0) st'
      ∧ mem st' !! b = Some (cstring_block (lit "c.src"))
      ∧ Z.of_nat (length (cstring_block (lit "c.src"))) = Z.of_nat (length (lit "c.src")) + 1
      ∧ load_cstr (mem st') (Ptr b 0) = Some (lit "c.src")
      ∧ mem_avail st' = mem_avail st - (Z.of_nat (length (lit "c.src")) + 1)
      ∧ trace st' = trace st
      ∧ errno st' = errno st.
Proof.
  intros st.
  assert (H1 : load_cstr (mem st) (Ptr 1%positive 5) = Some (lit "c.src")) by reflexivity.
  assert (H2 : Z.of_nat (length (lit "c.src")) < SIZE_MAX) by reflexivity.
  assert (H3 : Z.of_nat (length (lit "c.src")) + 1 <= mem_avail st)
    by (vm_compute; discriminate).
  repeat (split; [assumption|]).
  exact (strdup_variants_agree_on_success (Ptr 1%positive 5) st (lit "c.src") H1 H2 H3).
Defined.

Lemma estrdup_message_length str :
  (length (estrdup_message str) <= 39)%nat.
Proof.
  unfold estrdup_message. rewrite !length_app, length_take.
  pose proof (Nat.le_min_l 20 (length str)) as Hmin.
  change (length (lit "estrdup(")) with 8%nat.
  change (length (lit ") failed:")) with 9%nat.
  change (length [DQUOTE]) with 1%nat. lia.
Qed.

(** X6.  When its allocation fails, [estrdup] ends the process with exit
    status 2 after one [Error:] diagnostic; the message quotes at most the
    first 20 characters of the string, however long it is, and the memory
    is unchanged. *)
Theorem estrdup_failure_report s st str prog src :
  load_cstr (mem st) s = Some str ->
  Z.of_nat (length str) < SIZE_MAX ->
  mem_avail st < Z.of_nat (length str) + 1 ->
  load_name (mem st) (pname st) = Some prog ->
  load_name (mem st) (sname st) = Some src ->
  ∃ st',
    estrdup s st = Exit 2 st'
    ∧ mem st' = mem st
    ∧ added st st' =
        diagnostic (is_tty st 2) prog src None (Some (error_tag (is_tty st 2)))
          (lit "estrdup(" ++ [DQUOTE] ++ take 20 str ++ [DQUOTE] ++ lit ") failed:")
          true (errno st')
    ∧ (length (lit "estrdup(" ++ [DQUOTE] ++ take 20 str ++ [DQUOTE] ++ lit ") failed:")
       <= 39)%nat.
Proof.
  intros Hs Hmax Havail Hp Hsrc. eexists.
  split; [apply (estrdup_fail_run s st str prog src Hs Hmax Havail Hp Hsrc)|].
  split; [cbn [mem emits]; apply (after_isatty_mem (set_errno st ENOMEM))|].
  split; [|apply estrdup_message_length].
  apply added_emits. cbn [trace emits errno]. now rewrite after_isatty_trace.
Qed.

Lemma estrdup_failure_report_witness :
  let str := lit "abcdefghijklmnopqrstuvwxyz" in
  load_cstr (mem st_long) (Ptr 1%positive 0) = Some str
  ∧ Z.of_nat (length str) < SIZE_MAX
  ∧ mem_avail st_long < Z.of_nat (length str) + 1
  ∧ load_name (mem st_long) (pname st_long) = Some None
  ∧ load_name (mem st_long) (sname st_long) = Some None
  ∧ ∃ st',
      estrdup (Ptr 1%positive 0) st_long = Exit 2 st'
      ∧ mem st' = mem st_long
      ∧ added st_long st' =
          diagnostic (is_tty st_long 2) None None None (Some (error_tag (is_tty st_long 2)))
            (lit "estrdup(" ++ [DQUOTE] ++ take 20 str ++ [DQUOTE] ++ lit ") failed:")
            true (errno st')
      ∧ (length (lit "estrdup(" ++ [DQUOTE] ++ take 20 str ++ [DQUOTE] ++ lit ") failed:")
         <= 39)%nat.
Proof.
  intros str.
  assert (H1 : load_cstr (mem st_long) (Ptr 1%positive 0) = Some str) by reflexivity.
  assert (H2 : Z.of_nat (length str) < SIZE_MAX) by reflexivity.
  assert (H3 : mem_avail st_long < Z.of_nat (length str) + 1) by reflexivity.
  assert (H4 : load_name (mem st_long) (pname st_long) = Some None) by reflexivity.
  assert (H5 : load_name (mem st_long) (sname st_long) = Some None) by reflexivity.
  repeat (split; [assumption|]).
  exact (estrdup_failure_report (Ptr 1%positive 0) st_long str None None H1 H2 H3 H4 H5).
Defined.

(** The run of the witness: 20 of the 26 characters are quoted. *)
Example sample_failed_duplication :
  run_text (estrdup (Ptr 1%positive 0) st_long)
  = Some (lit " Error: estrdup(" ++ [DQUOTE] ++ lit "abcdefghijklmnopqrst" ++ [DQUOTE]
          ++ lit ") failed: Inappropriate ioctl for device" ++ [NEWLINE]).
Proof. vm_compute. reflexivity. Qed.

(** ** The two names together, and their release *)

(** X7.  After [setprogname p] (the duplication's allocation succeeding),
    [getprogname ()] returns a pointer to the final component of [p]: what
    follows the last ['/'], or [p] itself when it holds no separator. *)
Theorem setprogname_keeps_final_component s st path base :
  load_cstr (mem st) s = Some path ->
  final_component path base ->
  Z.of_nat (length base) < SIZE_MAX ->
  Z.of_nat (length base) + 1 <= mem_avail st ->
  ∃ st' q,
    setprogname s st = Ret tt st'
    ∧ getprogname st' = Ret q st'
    ∧ load_cstr (mem st') q = Some base
    ∧ sname st' = sname st.
Proof.
  intros Hs Hfc Hmax Havail.
  eexists _, _. split; [now apply (setprogname_run s st path base)|].
  split; [reflexivity|]. cbn [mem pname sname set_pname set_mem].
  split; [|reflexivity].
  apply load_cstring_block. eapply final_component_no_nul; eassumption.
Qed.

Lemma setprogname_keeps_final_component_witness :
  let st := st0 false 100 0 in
  load_cstr (mem st) (Ptr 1%positive 0) = Some (lit "/a/b/c.src")
  ∧ final_component (lit "/a/b/c.src") (lit "c.src")
  ∧ Z.of_nat (length (lit "c.src")) < SIZE_MAX
  ∧ Z.of_nat (length (lit "c.src")) + 1 <= mem_avail st
  ∧ ∃ st' q,
      setprogname (Ptr 1%positive 0) st = Ret tt st'
      ∧ getprogname st' = Ret q st'
      ∧ load_cstr (mem st') q = Some (lit "c.src")
      ∧ sname st' = sname st.
Proof.
  intros st.
  assert (H1 : load_cstr (mem st) (Ptr 1%positive 0) = Some (lit "/a/b/c.src")) by reflexivity.
  assert (H2 : final_component (lit "/a/b/c.src") (lit "c.src")).
  { split; [not_in_literal|]. right. now exists (lit "/a/b"). }
  assert (H3 : Z.of_nat (length (lit "c.src")) < SIZE_MAX) by reflexivity.
  assert (H4 : Z.of_nat (length (lit "c.src")) + 1 <= mem_avail st)
    by (vm_compute; discriminate).
  repeat (split; [assumption|]).
  exact (setprogname_keeps_final_component (Ptr 1%positive 0) st
           (lit "/a/b/c.src") (lit "c.src") H1 H2 H3 H4).
Defined.

Lemma load_cstr_fresh_insert (h : gmap block (list cell)) p s cells :
  load_cstr h p = Some s -> load_cstr (<[fresh (dom h) := cells]> h) p = Some s.
Proof.
  intros Hs. destruct p as [|b o]; [discriminate|].
  rewrite load_cstr_other_block; [exact Hs|].
  intros ->. apply (fresh_block_unallocated h). eapply load_cstr_allocated, Hs.
Qed.

(** X8.  [setprogname p] followed by [setsrcname q] installs both names:
    the getters return two different pointers, to the final component of
    [p] and to the final component of [q]. *)
Theorem both_names_installed p q st pathp basep pathq baseq :
  load_cstr (mem st) p = Some pathp ->
  final_component pathp basep ->
  load_cstr (mem st) q = Some pathq ->
  final_component pathq baseq ->
  Z.of_nat (length basep) < SIZE_MAX ->
  Z.of_nat (length baseq) < SIZE_MAX ->
  (Z.of_nat (length basep) + 1) + (Z.of_nat (length baseq) + 1) <= mem_avail st ->
  ∃ st' pp qq,
    (setprogname p ;;; setsrcname q) st = Ret tt st'
    ∧ getprogname st' = Ret pp st'
    ∧ getsrcname st' = Ret qq st'
    ∧ load_cstr (mem st') pp = Some basep
    ∧ load_cstr (mem st') qq = Some baseq
    ∧ pp ≠ qq.
Proof.
  intros Hp Hfp Hq Hfq Hmp Hmq Havail.
  assert (Hap : Z.of_nat (length basep) + 1 <= mem_avail st) by lia.
  pose proof (setprogname_run p st pathp basep Hp Hfp Hmp Hap) as Hrun1.
  set (b1 := fresh (dom (mem st))) in *.
  set (st1 := set_pname _ _) in Hrun1.
  assert (Hq1 : load_cstr (mem st1) q = Some pathq)
    by (subst st1; cbn [mem set_pname set_mem]; now apply load_cstr_fresh_insert).
  assert (Haq : Z.of_nat (length baseq) + 1 <= mem_avail st1)
    by (subst st1; cbn [mem_avail set_pname set_mem]; lia).
  pose proof (setsrcname_run q st1 pathq baseq Hq1 Hfq Hmq Haq) as Hrun2.
  assert (Hnp : NUL ∉ basep) by exact (final_component_no_nul _ _ _ _ Hp Hfp).
  assert (Hnq : NUL ∉ baseq) by exact (final_component_no_nul _ _ _ _ Hq Hfq).
  assert (Hb1 : load_cstr (mem st1) (Ptr b1 0) = Some basep)
    by (subst st1; cbn [mem set_pname set_mem]; now apply load_cstring_block).
  eexists _, _, _.
  split; [rewrite (bind_Ret _ _ _ _ _ Hrun1); exact Hrun2|].
  split; [reflexivity|]. split; [reflexivity|].
  cbn [mem pname sname set_sname set_mem].
  split; [|split].
  - change (pname st1) with (Ptr b1 0). now apply load_cstr_fresh_insert.
  - now apply load_cstring_block.
  - change (pname st1) with (Ptr b1 0). intros [= Heq].
    apply (fresh_block_unallocated (mem st1)).
    assert (Hin : b1 ∈ dom (mem st1)) by (eapply load_cstr_allocated, Hb1).
    exact (eq_ind b1 (λ x, x ∈ dom (mem st1)) Hin _ Heq).
Qed.

Lemma both_names_installed_witness :
  load_cstr (mem st_argv) (Ptr 1%positive 0) = Some (lit "./bin/cc")
  ∧ final_component (lit "./bin/cc") (lit "cc")
  ∧ load_cstr (mem st_argv) (Ptr 2%positive 0) = Some (lit "tests/t1.src")
  ∧ final_component (lit "tests/t1.src") (lit "t1.src")
  ∧ Z.of_nat (length (lit "cc")) < SIZE_MAX
  ∧ Z.of_nat (length (lit "t1.src")) < SIZE_MAX
  ∧ (Z.of_nat (length (lit "cc")) + 1) + (Z.of_nat (length (lit "t1.src")) + 1)
    <= mem_avail st_argv
  ∧ ∃ st' pp qq,
      (setprogname (Ptr 1%positive 0) ;;; setsrcname (Ptr 2%positive 0)) st_argv = Ret tt st'
      ∧ getprogname st' = Ret pp st'
      ∧ getsrcname st' = Ret qq st'
      ∧ load_cstr (mem st') pp = Some (lit "cc")
      ∧ load_cstr (mem st') qq = Some (lit "t1.src")
      ∧ pp ≠ qq.
Proof.
  assert (H1 : load_cstr (mem st_argv) (Ptr 1%positive 0) = Some (lit "./bin/cc"))
    by reflexivity.
  assert (H2 : final_component (lit "./bin/cc") (lit "cc")).
  { split; [not_in_literal|]. right. now exists (lit "./bin"). }
  assert (H3 : load_cstr (mem st_argv) (Ptr 2%positive 0) = Some (lit "tests/t1.src"))
    by reflexivity.
  assert (H4 : final_component (lit "tests/t1.src") (lit "t1.src")).
  { split; [not_in_literal|]. right. now exists (lit "tests"). }
  assert (H5 : Z.of_nat (length (lit "cc")) < SIZE_MAX) by reflexivity.
  assert (H6 : Z.of_nat (length (lit "t1.src")) < SIZE_MAX) by reflexivity.
  assert (H7 : (Z.of_nat (length (lit "cc")) + 1) + (Z.of_nat (length (lit "t1.src")) + 1)
               <= mem_avail st_argv) by (vm_compute; discriminate).
  repeat (split; [assumption|]).
  exact (both_names_installed (Ptr 1%positive 0) (Ptr 2%positive 0) st_argv
           (lit "./bin/cc") (lit "cc") (lit "tests/t1.src") (lit "t1.src")
           H1 H2 H3 H4 H5 H6 H7).
Defined.

(** The diagnostic a driver gets after installing both names. *)
Example sample_named_diagnostic :
  run_text ((setprogname (Ptr 1%positive 0) ;;; setsrcname (Ptr 2%positive 0) ;;;
             leprintf (lit "unexpected %s") [ALit (lit "token")]) st_argv)
  = Some (lit "cc: t1.src:1:1: Error: unexpected token" ++ [NEWLINE]).
Proof. vm_compute. reflexivity. Qed.

(** X9.  [setsrcname] does not release the name it replaces: the block of
    the previous name stays allocated with its contents, the new name lives
    in a different block, and the allocator's budget only shrinks. *)
Theorem setsrcname_keeps_previous_block s st path base b0 o0 old :
  sname st = Ptr b0 o0 ->
  load_cstr (mem st) (Ptr b0 o0) = Some old ->
  load_cstr (mem st) s = Some path ->
  final_component path base ->
  Z.of_nat (length base) < SIZE_MAX ->
  Z.of_nat (length base) + 1 <= mem_avail st ->
  ∃ st' b,
    setsrcname s st = Ret tt st'
    ∧ sname st' = Ptr b 0
    ∧ b ≠ b0
    ∧ mem st' !! b0 = mem st !! b0
    ∧ load_cstr (mem st') (Ptr b0 o0) = Some old
    ∧ mem_avail st' = mem_avail st - (Z.of_nat (length base) + 1).
Proof.
  intros Hsn Hold Hs Hfc Hmax Havail.
  assert (Hne : fresh (dom (mem st)) ≠ b0).
  { intros Heq. apply (fresh_block_unallocated (mem st)). rewrite Heq.
    eapply load_cstr_allocated, Hold. }
  eexists _, _. split; [now apply (setsrcname_run s st path base)|].
  cbn [mem sname mem_avail set_sname set_mem].
  split; [reflexivity|]. split; [exact Hne|].
  split; [now apply lookup_insert_ne|].
  split; [now apply load_cstr_fresh_insert | reflexivity].
Qed.

Lemma setsrcname_keeps_previous_block_witness :
  let st := st_named false 0 in
  sname st = Ptr 2%positive 0
  ∧ load_cstr (mem st) (Ptr 2%positive 0) = Some (lit "c.src")
  ∧ load_cstr (mem st) (Ptr 1%positive 0) = Some (lit "cc")
  ∧ final_component (lit "cc") (lit "cc")
  ∧ Z.of_nat (length (lit "cc")) < SIZE_MAX
  ∧ Z.of_nat (length (lit "cc")) + 1 <= mem_avail st
  ∧ ∃ st' b,
      setsrcname (Ptr 1%positive 0) st = Ret tt st'
      ∧ sname st' = Ptr b 0
      ∧ b ≠ 2%positive
      ∧ mem st' !! 2%positive = mem st !! 2%positive
      ∧ load_cstr (mem st') (Ptr 2%positive 0) = Some (lit "c.src")
      ∧ mem_avail st' = mem_avail st - (Z.of_nat (length (lit "cc")) + 1).
Proof.
  intros st.
  assert (H1 : sname st = Ptr 2%positive 0) by reflexivity.
  assert (H2 : load_cstr (mem st) (Ptr 2%positive 0) = Some (lit "c.src")) by reflexivity.
  assert (H3 : load_cstr (mem st) (Ptr 1%positive 0) = Some (lit "cc")) by reflexivity.
  assert (H4 : final_component (lit "cc") (lit "cc")) by (split; [not_in_literal | now left]).
  assert (H5 : Z.of_nat (length (lit "cc")) < SIZE_MAX) by reflexivity.
  assert (H6 : Z.of_nat (length (lit "cc")) + 1 <= mem_avail st) by (vm_compute; discriminate).
  repeat (split; [assumption|]).
  exact (setsrcname_keeps_previous_block (Ptr 1%positive 0) st (lit "cc") (lit "cc")
           2%positive 0%nat (lit "c.src") H1 H2 H3 H4 H5 H6).
Defined.

(** X10.  [setsrcname] reads its argument and leaves it as it was, and the
    installed name does not depend on it afterwards: whatever the caller
    then writes into the argument's block, [getsrcname ()] still points to
    the final component. *)
Theorem installed_name_independent_of_argument bs os st path base :
  load_cstr (mem st) (Ptr bs os) = Some path ->
  final_component path base ->
  Z.of_nat (length base) < SIZE_MAX ->
  Z.of_nat (length base) + 1 <= mem_avail st ->
  ∃ st' q,
    setsrcname (Ptr bs os) st = Ret tt st'
    ∧ getsrcname st' = Ret q st'
    ∧ mem st' !! bs = mem st !! bs
    ∧ load_cstr (mem st') (Ptr bs os) = Some path
    ∧ (∀ o bytes h',
         store_bytes (mem st') (Ptr bs o) bytes = Some h' -> load_cstr h' q = Some base).
Proof.
  intros Hs Hfc Hmax Havail.
  assert (Hne : fresh (dom (mem st)) ≠ bs).
  { intros Heq. apply (fresh_block_unallocated (mem st)). rewrite Heq.
    eapply load_cstr_allocated, Hs. }
  assert (Hnul : NUL ∉ base) by exact (final_component_no_nul _ _ _ _ Hs Hfc).
  eexists _, _. split; [now apply (setsrcname_run (Ptr bs os) st path base)|].
  split; [reflexivity|]. cbn [mem sname set_sname set_mem].
  split; [now apply lookup_insert_ne|].
  split; [now apply load_cstr_fresh_insert|].
  intros o bytes h' Hst.
  rewrite (store_bytes_other_block _ _ _ _ _ (fresh (dom (mem st))) 0%nat Hst Hne).
  now apply load_cstring_block.
Qed.

Lemma installed_name_independent_of_argument_witness :
  let st := st0 false 100 0 in
  load_cstr (mem st) (Ptr 1%positive 0) = Some (lit "/a/b/c.src")
  ∧ final_component (lit "/a/b/c.src") (lit "c.src")
  ∧ Z.of_nat (length (lit "c.src")) < SIZE_MAX
  ∧ Z.of_nat (length (lit "c.src")) + 1 <= mem_avail st
  ∧ ∃ st' q,
      setsrcname (Ptr 1%positive 0) st = Ret tt st'
      ∧ getsrcname st' = Ret q st'
      ∧ mem st' !! 1%positive = mem st !! 1%positive
      ∧ load_cstr (mem st') (Ptr 1%positive 0) = Some (lit "/a/b/c.src")
      ∧ (∀ o bytes h',
           store_bytes (mem st') (Ptr 1%positive o) bytes = Some h' ->
           load_cstr h' q = Some (lit "c.src")).
Proof.
  intros st.
  assert (H1 : load_cstr (mem st) (Ptr 1%positive 0) = Some (lit "/a/b/c.src")) by reflexivity.
  assert (H2 : final_component (lit "/a/b/c.src") (lit "c.src")).
  { split; [not_in_literal|]. right. now exists (lit "/a/b"). }
  assert (H3 : Z.of_nat (length (lit "c.src")) < SIZE_MAX) by reflexivity.
  assert (H4 : Z.of_nat (length (lit "c.src")) + 1 <= mem_avail st)
    by (vm_compute; discriminate).
  repeat (split; [assumption|]).
  exact (installed_name_independent_of_argument 1%positive 0%nat st
           (lit "/a/b/c.src") (lit "c.src") H1 H2 H3 H4).
Defined.

Lemma length_cstring_block (s : cstr) :
  Z.of_nat (length (cstring_block s)) = Z.of_nat (length s) + 1.
Proof. unfold cstring_block. rewrite length_fmap, length_app. cbn. lia. Qed.

(** X11.  Setting a name and releasing it gives the memory back: after
    [setsrcname] then [freesrcname], and after [setprogname] then
    [freeprogname], the blocks and the allocator's budget are what they
    were before; the name variable is not reset, it keeps a non-null
    pointer to the block that is gone. *)
Theorem set_then_free_restores_memory s st path base :
  load_cstr (mem st) s = Some path ->
  final_component path base ->
  Z.of_nat (length base) < SIZE_MAX ->
  Z.of_nat (length base) + 1 <= mem_avail st ->
  (∃ st' b,
     (setsrcname s ;;; freesrcname) st = Ret tt st'
     ∧ mem st' = mem st
     ∧ mem_avail st' = mem_avail st
     ∧ sname st' = Ptr b 0
     ∧ mem st' !! b = None)
  ∧ (∃ st' b,
       (setprogname s ;;; freeprogname) st = Ret tt st'
       ∧ mem st' = mem st
       ∧ mem_avail st' = mem_avail st
       ∧ pname st' = Ptr b 0
       ∧ mem st' !! b = None).
Proof.
  intros Hs Hfc Hmax Havail.
  pose proof (fresh_block_unallocated (mem st)) as Hfresh.
  apply not_elem_of_dom in Hfresh.
  split; eexists _, _.
  - split.
    + rewrite (bind_Ret _ _ _ _ _ (setsrcname_run s st path base Hs Hfc Hmax Havail)).
      unfold freesrcname. cbn [sname set_sname].
      cbn [free mem set_mem set_sname]. rewrite lookup_insert_eq.
      rewrite delete_insert_id by exact Hfresh. reflexivity.
    + cbn [mem mem_avail sname set_mem set_sname]. rewrite length_cstring_block.
      split; [reflexivity|]. split; [lia|]. split; [reflexivity | exact Hfresh].
  - split.
    + rewrite (bind_Ret _ _ _ _ _ (setprogname_run s st path base Hs Hfc Hmax Havail)).
      unfold freeprogname. cbn [pname set_pname].
      cbn [free mem set_mem set_pname]. rewrite lookup_insert_eq.
      rewrite delete_insert_id by exact Hfresh. reflexivity.
    + cbn [mem mem_avail pname set_mem set_pname]. rewrite length_cstring_block.
      split; [reflexivity|]. split; [lia|]. split; [reflexivity | exact Hfresh].
Qed.

Lemma set_then_free_restores_memory_witness :
  let st := st0 false 100 0 in
  load_cstr (mem st) (Ptr 1%positive 0) = Some (lit "/a/b/c.src")
  ∧ final_component (lit "/a/b/c.src") (lit "c.src")
  ∧ Z.of_nat (length (lit "c.src")) < SIZE_MAX
  ∧ Z.of_nat (length (lit "c.src")) + 1 <= mem_avail st
  ∧ (∃ st' b,
       (setsrcname (Ptr 1%positive 0) ;;; freesrcname) st = Ret tt st'
       ∧ mem st' = mem st
       ∧ mem_avail st' = mem_avail st
       ∧ sname st' = Ptr b 0
       ∧ mem st' !! b = None)
  ∧ (∃ st' b,
       (setprogname (Ptr 1%positive 0) ;;; freeprogname) st = Ret tt st'
       ∧ mem st' = mem st
       ∧ mem_avail st' = mem_avail st
       ∧ pname st' = Ptr b 0
       ∧ mem st' !! b = None).
Proof.
  intros st.
  assert (H1 : load_cstr (mem st) (Ptr 1%positive 0) = Some (lit "/a/b/c.src")) by reflexivity.
  assert (H2 : final_component (lit "/a/b/c.src") (lit "c.src")).
  { split; [not_in_literal|]. right. now exists (lit "/a/b"). }
  assert (H3 : Z.of_nat (length (lit "c.src")) < SIZE_MAX) by reflexivity.
  assert (H4 : Z.of_nat (length (lit "c.src")) + 1 <= mem_avail st)
    by (vm_compute; discriminate).
  repeat (split; [assumption|]).
  exact (set_then_free_restores_memory (Ptr 1%positive 0) st
           (lit "/a/b/c.src") (lit "c.src") H1 H2 H3 H4).
Defined.

(** *** A released name is still read *)

Lemma fprintf_stderr_mem fmt args st a st' :
  fprintf_stderr fmt args st = Ret a st' -> mem st' = mem st.
Proof.
  unfold fprintf_stderr. destruct (sprintf (mem st) fmt args); [|discriminate].
  now intros [= _ <-].
Qed.

Lemma _weprintf_dangling_name pre pos fmt args st b o :
  pname st = Ptr b o ∨ sname st = Ptr b o ->
  load_cstr (mem st) (Ptr b o) = None ->
  _weprintf pre pos fmt args st = Fault.
Proof.
  intros Hname Hload. unfold _weprintf.
  rewrite (bind_Ret _ _ _ _ _ (isatty_run 2 st)).
  pose proof (after_isatty_mem st 2) as Hm.
  pose proof (after_isatty_pname st 2) as Hpn.
  pose proof (after_isatty_sname st 2) as Hsn.
  set (st1 := after_isatty st 2) in *.
  rewrite <- Hm in Hload. rewrite <- Hpn, <- Hsn in Hname. clear Hm Hpn Hsn.
  unfold getprogname, getsrcname, fflush_stdout. cbn beta. unfold bind at 1 2 3.
  set (st2 := emit st1 EvFlushStdout).
  destruct Hname as [Hp|Hs].
  - rewrite Hp. apply bind_Fault.
    unfold fprintf_stderr, sprintf. cbn -[load_cstr].
    change (mem st2) with (mem st1). now rewrite Hload.
  - unfold bind at 1.
    destruct (match pname st1 with
              | NULL => ret tt
              | Ptr _ _ => fprintf_stderr (lit "%s:") [AStr (pname st1)]
              end st2) as [[] st3|status st3|] eqn:E; [|exfalso|reflexivity].
    + assert (Hm3 : mem st3 = mem st1).
      { destruct (pname st1); [now injection E as <-|].
        now rewrite (fprintf_stderr_mem _ _ _ _ _ E). }
      rewrite Hs. apply bind_Fault.
      unfold fprintf_stderr, sprintf. cbn -[load_cstr].
      rewrite Hm3, Hload. now destruct (is_tty st 2).
    + destruct (pname st1); [discriminate E|].
      now apply fprintf_stderr_no_exit in E.
Qed.

(** X12.  The reporting routines read the installed names through the name
    variables: when one of them holds a pointer that no longer leads to a
    string (as after [freesrcname] or [freeprogname]), every call of
    [eprintf], [leprintf], [weprintf] and [teprintf] is undefined. *)
Theorem report_with_dangling_name_is_undefined fmt args st b o :
  pname st = Ptr b o ∨ sname st = Ptr b o ->
  load_cstr (mem st) (Ptr b o) = None ->
  eprintf fmt args st = Fault
  ∧ leprintf fmt args st = Fault
  ∧ weprintf fmt args st = Fault
  ∧ (∀ tag, teprintf tag fmt args st = Fault).
Proof.
  intros Hname Hload.
  assert (Hname' : pname (after_isatty st 2) = Ptr b o ∨ sname (after_isatty st 2) = Ptr b o)
    by now rewrite after_isatty_pname, after_isatty_sname.
  assert (Hload' : load_cstr (mem (after_isatty st 2)) (Ptr b o) = None)
    by now rewrite after_isatty_mem.
  repeat split.
  - unfold eprintf. rewrite (bind_Ret _ _ _ _ _ (isatty_run 2 st)).
    apply bind_Fault. now apply (_weprintf_dangling_name _ _ _ _ _ b o).
  - unfold leprintf. rewrite (bind_Ret _ _ _ _ _ (isatty_run 2 st)).
    unfold bind at 1, get_position.
    apply bind_Fault. now apply (_weprintf_dangling_name _ _ _ _ _ b o).
  - unfold weprintf. rewrite (bind_Ret _ _ _ _ _ (isatty_run 2 st)).
    now apply (_weprintf_dangling_name _ _ _ _ _ b o).
  - intros tag. unfold teprintf. unfold bind at 1, get_position.
    apply bind_Fault. now apply (_weprintf_dangling_name _ _ _ _ _ b o).
Qed.

Lemma report_with_dangling_name_is_undefined_witness :
  (setsrcname (Ptr 1%positive 0) ;;; freesrcname) (st0 false 100 0) = Ret tt st_released
  ∧ (pname st_released = Ptr 2%positive 0 ∨ sname st_released = Ptr 2%positive 0)
  ∧ load_cstr (mem st_released) (Ptr 2%positive 0) = None
  ∧ eprintf (lit "bad token") [] st_released = Fault
  ∧ leprintf (lit "bad token") [] st_released = Fault
  ∧ weprintf (lit "bad token") [] st_released = Fault
  ∧ (∀ tag, teprintf tag (lit "bad token") [] st_released = Fault).
Proof.
  assert (H0 : (setsrcname (Ptr 1%positive 0) ;;; freesrcname) (st0 false 100 0)
               = Ret tt st_released) by (vm_compute; reflexivity).
  assert (H1 : pname st_released = Ptr 2%positive 0 ∨ sname st_released = Ptr 2%positive 0)
    by (right; reflexivity).
  assert (H2 : load_cstr (mem st_released) (Ptr 2%positive 0) = None) by reflexivity.
  repeat (split; [assumption|]).
  exact (report_with_dangling_name_is_undefined (lit "bad token") [] st_released
           2%positive 0%nat H1 H2).
Defined.

(** X13.  Releasing a name twice is a double free: after [setsrcname], a
    second [freesrcname] is undefined, and likewise a second
    [freeprogname] after [setprogname]. *)
Theorem second_release_is_undefined s st path base :
  load_cstr (mem st) s = Some path ->
  final_component path base ->
  Z.of_nat (length base) < SIZE_MAX ->
  Z.of_nat (length base) + 1 <= mem_avail st ->
  (setsrcname s ;;; freesrcname ;;; freesrcname) st = Fault
  ∧ (setprogname s ;;; freeprogname ;;; freeprogname) st = Fault.
Proof.
  intros Hs Hfc Hmax Havail.
  pose proof (fresh_block_unallocated (mem st)) as Hfresh.
  apply not_elem_of_dom in Hfresh.
  split.
  - rewrite (bind_Ret _ _ _ _ _ (setsrcname_run s st path base Hs Hfc Hmax Havail)).
    unfold bind, freesrcname. cbn [sname set_sname free mem set_mem].
    rewrite lookup_insert_eq. cbn [sname set_sname free mem set_mem].
    now rewrite lookup_delete_eq.
  - rewrite (bind_Ret _ _ _ _ _ (setprogname_run s st path base Hs Hfc Hmax Havail)).
    unfold bind, freeprogname. cbn [pname set_pname free mem set_mem].
    rewrite lookup_insert_eq. cbn [pname set_pname free mem set_mem].
    now rewrite lookup_delete_eq.
Qed.

Lemma second_release_is_undefined_witness :
  let st := st0 false 100 0 in
  load_cstr (mem st) (Ptr 1%positive 0) = Some (lit "/a/b/c.src")
  ∧ final_component (lit "/a/b/c.src") (lit "c.src")
  ∧ Z.of_nat (length (lit "c.src")) < SIZE_MAX
  ∧ Z.of_nat (length (lit "c.src")) + 1 <= mem_avail st
  ∧ (setsrcname (Ptr 1%positive 0) ;;; freesrcname ;;; freesrcname) st = Fault
  ∧ (setprogname (Ptr 1%positive 0) ;;; freeprogname ;;; freeprogname) st = Fault.
Proof.
  intros st.
  assert (H1 : load_cstr (mem st) (Ptr 1%positive 0) = Some (lit "/a/b/c.src")) by reflexivity.
  assert (H2 : final_component (lit "/a/b/c.src") (lit "c.src")).
  { split; [not_in_literal|]. right. now exists (lit "/a/b"). }
  assert (H3 : Z.of_nat (length (lit "c.src")) < SIZE_MAX) by reflexivity.
  assert (H4 : Z.of_nat (length (lit "c.src")) + 1 <= mem_avail st)
    by (vm_compute; discriminate).
  repeat (split; [assumption|]).
  exact (second_release_is_undefined (Ptr 1%positive 0) st
           (lit "/a/b/c.src") (lit "c.src") H1 H2 H3 H4).
Defined.

(** ** What a diagnostic leaves behind *)

Lemma after_isatty_mem_avail st fd : mem_avail (after_isatty st fd) = mem_avail st.
Proof. unfold after_isatty. now destruct (is_tty st fd). Qed.

(** X14.  A warning changes nothing but the output and [errno]: memory, the
    allocator's budget, both names and the position are as before; [errno]
    is kept on a terminal and is [ENOTTY] after a warning printed to a
    stream that is not one. *)
Theorem weprintf_frame fmt args st :
  printable st fmt args ->
  ∃ st',
    weprintf fmt args st = Ret tt st'
    ∧ mem st' = mem st
    ∧ mem_avail st' = mem_avail st
    ∧ pname st' = pname st
    ∧ sname st' = sname st
    ∧ position st' = position st
    ∧ errno st' = (if is_tty st 2 then errno st else ENOTTY).
Proof.
  intros ([prog Hp] & [src Hs] & [body Hb]).
  eexists. split; [apply (weprintf_run fmt args st prog src body Hp Hs Hb)|].
  cbn [mem mem_avail pname sname position errno emits].
  rewrite after_isatty_mem, after_isatty_mem_avail, after_isatty_pname,
    after_isatty_sname, after_isatty_position, after_isatty_errno.
  repeat split.
Qed.

Lemma weprintf_frame_witness :
  let st := st_named false ENOENT in
  printable st (lit "unused %s") [ALit (lit "x")]
  ∧ ∃ st',
      weprintf (lit "unused %s") [ALit (lit "x")] st = Ret tt st'
      ∧ mem st' = mem st
      ∧ mem_avail st' = mem_avail st
      ∧ pname st' = pname st
      ∧ sname st' = sname st
      ∧ position st' = position st
      ∧ errno st' = (if is_tty st 2 then errno st else ENOTTY).
Proof.
  intros st.
  assert (Hpr : printable st (lit "unused %s") [ALit (lit "x")])
    by (repeat split; eexists; reflexivity).
  split; [exact Hpr|].
  exact (weprintf_frame (lit "unused %s") [ALit (lit "x")] st Hpr).
Defined.

(** *** One line for each diagnostic *)

Lemma uint_newline_free d : newline_free (lit (NilEmpty.string_of_uint d)).
Proof.
  unfold newline_free.
  induction d; cbn; [apply not_elem_of_nil | ..];
    (apply not_elem_of_cons; split; [discriminate | assumption]).
Qed.

Lemma decimal_newline_free z : newline_free (decimal z).
Proof.
  unfold decimal. destruct (Z.to_int z) as [d|d]; cbn.
  - destruct d; try apply uint_newline_free. not_in_literal.
  - apply not_elem_of_cons. split; [discriminate|].
    destruct d; try apply uint_newline_free. not_in_literal.
Qed.

Lemma strerror_newline_free e : newline_free (strerror e).
Proof.
  unfold strerror, newline_free.
  repeat (destruct (_ =? _); [not_in_literal|]).
  apply not_elem_of_app. split; [not_in_literal | apply decimal_newline_free].
Qed.

(** The text of a diagnostic is one line. *)
Lemma diagnostic_one_line istty prog src pos pre body colon e :
  option_newline_free prog -> option_newline_free src -> option_newline_free pre ->
  newline_free body ->
  ∃ text,
    stderr_text (diagnostic istty prog src pos pre body colon e) = text ++ [NEWLINE]
    ∧ newline_free text.
Proof.
  intros Hprog Hsrc Hpre Hbody. unfold diagnostic.
  rewrite !app_assoc, stderr_text_app. cbn [stderr_text]. rewrite app_nil_r.
  eexists. split; [reflexivity|].
  pose proof (strerror_newline_free e) as He.
  unfold wrap, colour.
  destruct prog as [n|]; [specialize (Hprog n eq_refl)|];
  (destruct src as [m|]; [specialize (Hsrc m eq_refl)|]);
  (destruct pre as [t|]; [specialize (Hpre t eq_refl)|]);
  destruct pos as [[l c]|], colon, istty; cbn; unfold newline_free in *;
    repeat first [ assumption
                 | apply decimal_newline_free
                 | apply not_elem_of_nil
                 | apply not_elem_of_app; split
                 | apply not_elem_of_cons; split; [discriminate|] ].
Qed.

Lemma fixed_tags_newline_free istty :
  option_newline_free (Some (error_tag istty))
  ∧ option_newline_free (Some (warning_tag istty)).
Proof.
  split; intros t [= <-]; destruct istty; not_in_literal.
Qed.

(** X15.  Each call of a reporting routine adds exactly one line to the
    diagnostic stream: when the names, the tag and the rendered message
    hold no newline, what the call wrote is newline-free text followed by
    one newline. *)
Theorem one_line_per_diagnostic fmt args st prog src body :
  load_name (mem st) (pname st) = Some prog ->
  load_name (mem st) (sname st) = Some src ->
  sprintf (mem st) fmt args = Some body ->
  option_newline_free prog -> option_newline_free src -> newline_free body ->
  (∃ st' text, eprintf fmt args st = Exit 2 st'
     ∧ output_since st st' = text ++ [NEWLINE] ∧ newline_free text)
  ∧ (∃ st' text, leprintf fmt args st = Exit 2 st'
       ∧ output_since st st' = text ++ [NEWLINE] ∧ newline_free text)
  ∧ (∃ st' text, weprintf fmt args st = Ret tt st'
       ∧ output_since st st' = text ++ [NEWLINE] ∧ newline_free text)
  ∧ (∀ tag, option_newline_free tag ->
       ∃ st' text, teprintf tag fmt args st = Exit 3 st'
         ∧ output_since st st' = text ++ [NEWLINE] ∧ newline_free text).
Proof.
  intros Hp Hs Hb Hfp Hfs Hfb.
  destruct (fixed_tags_newline_free (is_tty st 2)) as [Herr Hwarn].
  split; [|split; [|split; [|intros tag Hft]]].
  - destruct (diagnostic_one_line (is_tty st 2) prog src None (Some (error_tag (is_tty st 2)))
                body (fmt_ends_in_colon fmt) (errno (after_isatty st 2)) Hfp Hfs Herr Hfb)
      as (text & Htext & Hfree).
    eexists _, text. split; [apply (eprintf_run fmt args st prog src body Hp Hs Hb)|].
    unfold output_since. now rewrite added_after_isatty.
  - destruct (diagnostic_one_line (is_tty st 2) prog src (Some (position st))
                (Some (error_tag (is_tty st 2)))
                body (fmt_ends_in_colon fmt) (errno (after_isatty st 2)) Hfp Hfs Herr Hfb)
      as (text & Htext & Hfree).
    eexists _, text. split; [apply (leprintf_run fmt args st prog src body Hp Hs Hb)|].
    unfold output_since. now rewrite added_after_isatty.
  - destruct (diagnostic_one_line (is_tty st 2) prog src None
                (Some (warning_tag (is_tty st 2)))
                body (fmt_ends_in_colon fmt) (errno (after_isatty st 2)) Hfp Hfs Hwarn Hfb)
      as (text & Htext & Hfree).
    eexists _, text. split; [apply (weprintf_run fmt args st prog src body Hp Hs Hb)|].
    unfold output_since. now rewrite added_after_isatty.
  - destruct (diagnostic_one_line (is_tty st 2) prog src (Some (position st)) tag
                body (fmt_ends_in_colon fmt) (errno (after_isatty st 2)) Hfp Hfs Hft Hfb)
      as (text & Htext & Hfree).
    eexists _, text. split; [apply (teprintf_run fmt args st prog src body Hp Hs Hb)|].
    unfold output_since. now rewrite added_after_isatty.
Qed.

Lemma one_line_per_diagnostic_witness :
  let st := st_named true ENOENT in
  let fmt := lit "open %s failed:" in
  let args := [ALit (lit "f.txt")] in
  load_name (mem st) (pname st) = Some (Some (lit "cc"))
  ∧ load_name (mem st) (sname st) = Some (Some (lit "c.src"))
  ∧ sprintf (mem st) fmt args = Some (lit "open f.txt failed:")
  ∧ option_newline_free (Some (lit "cc"))
  ∧ option_newline_free (Some (lit "c.src"))
  ∧ newline_free (lit "open f.txt failed:")
  ∧ (∃ st' text, eprintf fmt args st = Exit 2 st'
       ∧ output_since st st' = text ++ [NEWLINE] ∧ newline_free text)
  ∧ (∃ st' text, leprintf fmt args st = Exit 2 st'
       ∧ output_since st st' = text ++ [NEWLINE] ∧ newline_free text)
  ∧ (∃ st' text, weprintf fmt args st = Ret tt st'
       ∧ output_since st st' = text ++ [NEWLINE] ∧ newline_free text)
  ∧ (∀ tag, option_newline_free tag ->
       ∃ st' text, teprintf tag fmt args st = Exit 3 st'
         ∧ output_since st st' = text ++ [NEWLINE] ∧ newline_free text).
Proof.
  intros st fmt args.
  assert (H1 : load_name (mem st) (pname st) = Some (Some (lit "cc"))) by reflexivity.
  assert (H2 : load_name (mem st) (sname st) = Some (Some (lit "c.src"))) by reflexivity.
  assert (H3 : sprintf (mem st) fmt args = Some (lit "open f.txt failed:")) by reflexivity.
  assert (H4 : option_newline_free (Some (lit "cc"))) by (intros t [= <-]; not_in_literal).
  assert (H5 : option_newline_free (Some (lit "c.src"))) by (intros t [= <-]; not_in_literal).
  assert (H6 : newline_free (lit "open f.txt failed:")) by not_in_literal.
  repeat (split; [assumption|]).
  exact (one_line_per_diagnostic fmt args st (Some (lit "cc")) (Some (lit "c.src"))
           (lit "open f.txt failed:") H1 H2 H3 H4 H5 H6).
Defined.

(** *** Warnings in sequence *)

(** X16.  Two warnings in a row add their two diagnostics to the stream in
    the order of the calls, each complete, and both suffixes show the same
    error text, that of [errno] as the calls leave it. *)
Theorem warnings_accumulate_in_order fmt1 args1 fmt2 args2 st prog src body1 body2 :
  load_name (mem st) (pname st) = Some prog ->
  load_name (mem st) (sname st) = Some src ->
  sprintf (mem st) fmt1 args1 = Some body1 ->
  sprintf (mem st) fmt2 args2 = Some body2 ->
  let tty := is_tty st 2 in
  ∃ st',
    (weprintf fmt1 args1 ;;; weprintf fmt2 args2) st = Ret tt st'
    ∧ added st st' =
        diagnostic tty prog src None (Some (warning_tag tty)) body1 (fmt_ends_in_colon fmt1)
                   (errno st')
        ++ diagnostic tty prog src None (Some (warning_tag tty)) body2 (fmt_ends_in_colon fmt2)
                      (errno st').
Proof.
  intros Hp Hs Hb1 Hb2 tty. subst tty.
  pose proof (weprintf_run fmt1 args1 st prog src body1 Hp Hs Hb1) as Hrun1.
  cbv zeta in Hrun1.
  set (st1 := emits (after_isatty st 2) _) in Hrun1.
  assert (Hm1 : mem st1 = mem st) by (subst st1; cbn [mem emits]; apply after_isatty_mem).
  assert (Hp1 : load_name (mem st1) (pname st1) = Some prog).
  { rewrite Hm1. subst st1. cbn [pname emits]. now rewrite after_isatty_pname. }
  assert (Hs1 : load_name (mem st1) (sname st1) = Some src).
  { rewrite Hm1. subst st1. cbn [sname emits]. now rewrite after_isatty_sname. }
  assert (Hb2' : sprintf (mem st1) fmt2 args2 = Some body2) by now rewrite Hm1.
  pose proof (weprintf_run fmt2 args2 st1 prog src body2 Hp1 Hs1 Hb2') as Hrun2.
  cbv zeta in Hrun2.
  assert (Htty : is_tty st1 2 = is_tty st 2).
  { subst st1. unfold is_tty. cbn [ttys emits]. apply after_isatty_is_tty. }
  assert (Hst : after_isatty st1 2 = st1).
  { unfold after_isatty at 1. rewrite Htty.
    destruct (is_tty st 2) eqn:E; [reflexivity|].
    subst st1. unfold after_isatty. rewrite E. reflexivity. }
  rewrite Htty, Hst in Hrun2.
  eexists. split; [rewrite (bind_Ret _ _ _ _ _ Hrun1); exact Hrun2|].
  apply added_emits. subst st1. cbn [trace emits errno].
  rewrite after_isatty_trace. now rewrite <- app_assoc.
Qed.

Lemma warnings_accumulate_in_order_witness :
  let st := st_named false ENOENT in
  load_name (mem st) (pname st) = Some (Some (lit "cc"))
  ∧ load_name (mem st) (sname st) = Some (Some (lit "c.src"))
  ∧ sprintf (mem st) (lit "open %s failed:") [ALit (lit "f.txt")]
    = Some (lit "open f.txt failed:")
  ∧ sprintf (mem st) (lit "unused %s") [ALit (lit "x")] = Some (lit "unused x")
  ∧ ∃ st',
      (weprintf (lit "open %s failed:") [ALit (lit "f.txt")] ;;;
       weprintf (lit "unused %s") [ALit (lit "x")]) st = Ret tt st'
      ∧ added st st' =
          diagnostic (is_tty st 2) (Some (lit "cc")) (Some (lit "c.src")) None
            (Some (warning_tag (is_tty st 2))) (lit "open f.txt failed:")
            (fmt_ends_in_colon (lit "open %s failed:")) (errno st')
          ++ diagnostic (is_tty st 2) (Some (lit "cc")) (Some (lit "c.src")) None
               (Some (warning_tag (is_tty st 2))) (lit "unused x")
               (fmt_ends_in_colon (lit "unused %s")) (errno st').
Proof.
  intros st.
  assert (H1 : load_name (mem st) (pname st) = Some (Some (lit "cc"))) by reflexivity.
  assert (H2 : load_name (mem st) (sname st) = Some (Some (lit "c.src"))) by reflexivity.
  assert (H3 : sprintf (mem st) (lit "open %s failed:") [ALit (lit "f.txt")]
               = Some (lit "open f.txt failed:")) by reflexivity.
  assert (H4 : sprintf (mem st) (lit "unused %s") [ALit (lit "x")] = Some (lit "unused x"))
    by reflexivity.
  repeat (split; [assumption|]).
  exact (warnings_accumulate_in_order (lit "open %s failed:") [ALit (lit "f.txt")]
           (lit "unused %s") [ALit (lit "x")] st (Some (lit "cc")) (Some (lit "c.src"))
           (lit "open f.txt failed:") (lit "unused x") H1 H2 H3 H4).
Defined.

(** ** Setting a name again after its release *)

(** X17.  A released name can be set again: [setsrcname s], [freesrcname],
    then [setsrcname s'] leaves the process in the very state that
    [setsrcname s'] alone gives, with the final component of [s']
    installed and readable. *)
Theorem name_set_again_after_release s s' st path base path' base' :
  load_cstr (mem st) s = Some path ->
  final_component path base ->
  Z.of_nat (length base) < SIZE_MAX ->
  Z.of_nat (length base) + 1 <= mem_avail st ->
  load_cstr (mem st) s' = Some path' ->
  final_component path' base' ->
  Z.of_nat (length base') < SIZE_MAX ->
  Z.of_nat (length base') + 1 <= mem_avail st ->
  ∃ st' q,
    (setsrcname s ;;; freesrcname ;;; setsrcname s') st = Ret tt st'
    ∧ setsrcname s' st = Ret tt st'
    ∧ getsrcname st' = Ret q st'
    ∧ load_cstr (mem st') q = Some base'.
Proof.
  intros Hs Hfc Hmax Havail Hs' Hfc' Hmax' Havail'.
  pose proof (fresh_block_unallocated (mem st)) as Hfresh.
  apply not_elem_of_dom in Hfresh.
  pose proof (setsrcname_run s' st path' base' Hs' Hfc' Hmax' Havail') as Hdirect.
  eexists _, _. split; [|split; [exact Hdirect|split; [reflexivity|]]].
  - rewrite (bind_Ret _ _ _ _ _ (setsrcname_run s st path base Hs Hfc Hmax Havail)).
    assert (Hfree : freesrcname
                      (set_sname
                         (set_mem st (<[fresh (dom (mem st)) := cstring_block base]> (mem st))
                                  (mem_avail st - (Z.of_nat (length base) + 1)))
                         (Ptr (fresh (dom (mem st))) 0))
                    = Ret tt (set_sname (set_mem st (mem st) (mem_avail st))
                                        (Ptr (fresh (dom (mem st))) 0))).
    { unfold freesrcname. cbn [sname set_sname free mem set_mem mem_avail].
      rewrite lookup_insert_eq, delete_insert_id by exact Hfresh.
      rewrite length_cstring_block. unfold set_sname, set_mem. cbn. do 2 f_equal. lia. }
    rewrite (bind_Ret _ _ _ _ _ Hfree).
    rewrite (setsrcname_run s' (set_sname (set_mem st (mem st) (mem_avail st))
                                          (Ptr (fresh (dom (mem st))) 0))
               path' base' Hs' Hfc' Hmax' Havail').
    reflexivity.
  - cbn [mem sname set_sname set_mem]. apply load_cstring_block.
    exact (final_component_no_nul _ _ _ _ Hs' Hfc').
Qed.

Lemma name_set_again_after_release_witness :
  load_cstr (mem st_argv) (Ptr 1%positive 0) = Some (lit "./bin/cc")
  ∧ final_component (lit "./bin/cc") (lit "cc")
  ∧ Z.of_nat (length (lit "cc")) < SIZE_MAX
  ∧ Z.of_nat (length (lit "cc")) + 1 <= mem_avail st_argv
  ∧ load_cstr (mem st_argv) (Ptr 2%positive 0) = Some (lit "tests/t1.src")
  ∧ final_component (lit "tests/t1.src") (lit "t1.src")
  ∧ Z.of_nat (length (lit "t1.src")) < SIZE_MAX
  ∧ Z.of_nat (length (lit "t1.src")) + 1 <= mem_avail st_argv
  ∧ ∃ st' q,
      (setsrcname (Ptr 1%positive 0) ;;; freesrcname ;;; setsrcname (Ptr 2%positive 0)) st_argv
      = Ret tt st'
      ∧ setsrcname (Ptr 2%positive 0) st_argv = Ret tt st'
      ∧ getsrcname st' = Ret q st'
      ∧ load_cstr (mem st') q = Some (lit "t1.src").
Proof.
  assert (H1 : load_cstr (mem st_argv) (Ptr 1%positive 0) = Some (lit "./bin/cc"))
    by reflexivity.
  assert (H2 : final_component (lit "./bin/cc") (lit "cc")).
  { split; [not_in_literal|]. right. now exists (lit "./bin"). }
  assert (H3 : Z.of_nat (length (lit "cc")) < SIZE_MAX) by reflexivity.
  assert (H4 : Z.of_nat (length (lit "cc")) + 1 <= mem_avail st_argv)
    by (vm_compute; discriminate).
  assert (H5 : load_cstr (mem st_argv) (Ptr 2%positive 0) = Some (lit "tests/t1.src"))
    by reflexivity.
  assert (H6 : final_component (lit "tests/t1.src") (lit "t1.src")).
  { split; [not_in_literal|]. right. now exists (lit "tests"). }
  assert (H7 : Z.of_nat (length (lit "t1.src")) < SIZE_MAX) by reflexivity.
  assert (H8 : Z.of_nat (length (lit "t1.src")) + 1 <= mem_avail st_argv)
    by (vm_compute; discriminate).
  repeat (split; [assumption|]).
  exact (name_set_again_after_release (Ptr 1%positive 0) (Ptr 2%positive 0) st_argv
           (lit "./bin/cc") (lit "cc") (lit "tests/t1.src") (lit "t1.src")
           H1 H2 H3 H4 H5 H6 H7 H8).
Defined.
